(** * The listing mode of the line editor (edit/listing.go)

    A shallow embedding of the listing mode: its state (selection, filter
    text, page size), the window that [List] collects around the selection,
    the scrollbar interval, and the navigation and filter operations.

    Go's [int] is taken as 64 bits wide: values are in [Z] and every
    addition and subtraction of the source goes through [iadd] and [isub],
    which wrap.  A Go [string] is a list of bytes; its length and the
    counts derived from it are within [int] in Go and are unbounded here. *)

From Stdlib Require Import ZArith List Bool Lia.
From Stdlib Require Import Strings.Byte.
From Stdlib Require Import Floats.SpecFloat.
From Stdlib Require Strings.String.
Import ListNotations.
Open Scope Z_scope.

(** ** Machine integers *)

Definition max_int : Z := 2 ^ 63 - 1.
Definition min_int : Z := - 2 ^ 63.

Definition wrap (z : Z) : Z := (z + 2 ^ 63) mod 2 ^ 64 - 2 ^ 63.

Definition iadd (a b : Z) : Z := wrap (a + b).
Definition isub (a b : Z) : Z := wrap (a - b).

Definition is_int (z : Z) : Prop := min_int <= z <= max_int.

(** ** Run-time outcomes

    A slice expression out of range panics, and so does a nil dereference;
    [OutOfFuel] belongs to the model only, for a loop cut short. *)

Inductive res (A : Type) : Type :=
| Ok (a : A)
| Panic
| OutOfFuel.

Arguments Ok {A} a.
Arguments Panic {A}.
Arguments OutOfFuel {A}.

Definition bind {A B : Type} (r : res A) (k : A -> res B) : res B :=
  match r with
  | Ok a => k a
  | Panic => Panic
  | OutOfFuel => OutOfFuel
  end.

Notation "x <- r ;; k" := (bind r (fun x => k))
  (at level 61, r at next level, right associativity).
Notation "' p <- r ;; k" := (bind r (fun x => let 'p := x in k))
  (at level 61, p pattern, r at next level, right associativity).

(** ** Strings and slices *)

Definition gostring : Type := list byte.

Definition len {A : Type} (l : list A) : Z := Z.of_nat (List.length l).

Definition byte_val (b : byte) : Z := Z.of_N (Byte.to_N b).

(** The conversion [byte(x)] of an integer keeps the low eight bits. *)
Definition to_byte (z : Z) : byte :=
  match Byte.of_N (Z.to_N (z mod 256)) with
  | Some b => b
  | None => x00
  end.

(** [l[i:]] *)
Definition slice_from {A : Type} (l : list A) (i : Z) : res (list A) :=
  if (0 <=? i) && (i <=? len l) then Ok (skipn (Z.to_nat i) l) else Panic.

(** [l[:j]] *)
Definition slice_to {A : Type} (l : list A) (j : Z) : res (list A) :=
  if (0 <=? j) && (j <=? len l) then Ok (firstn (Z.to_nat j) l) else Panic.

(** [l[i:j]] *)
Definition slice {A : Type} (l : list A) (i j : Z) : res (list A) :=
  if (0 <=? i) && (i <=? j) && (j <=? len l)
  then Ok (firstn (Z.to_nat (j - i)) (skipn (Z.to_nat i) l))
  else Panic.

(** [l[i]] on a string, where the callers have checked the index. *)
Definition at_index (s : gostring) (i : Z) : byte := nth (Z.to_nat i) s x00.

(** Package [strings], for a separator of one byte (the listing only ever
    passes a newline). *)
Module strings.

Fixpoint Count (s : gostring) (sep : byte) : Z :=
  match s with
  | [] => 0
  | c :: r => (if Byte.eqb c sep then 1 else 0) + Count r sep
  end.

Fixpoint Split (s : gostring) (sep : byte) : list gostring :=
  match s with
  | [] => [[]]
  | c :: r =>
      if Byte.eqb c sep then [] :: Split r sep
      else match Split r sep with
           | l :: ls => (c :: l) :: ls
           | [] => [[c]]
           end
  end.

Fixpoint Join (a : list gostring) (sep : byte) : gostring :=
  match a with
  | [] => []
  | [l] => l
  | l :: ls => l ++ sep :: Join ls sep
  end.

End strings.

Definition nl : byte := x0a.

(** ** Package [unicode/utf8] of the Go library, as far as [backspace]
    uses it, and the conversion [string(r)] of a rune. *)
Module utf8.

Definition RuneError : Z := 0xFFFD.
Definition RuneSelf : Z := 0x80.
Definition UTFMax : Z := 4.
Definition MaxRune : Z := 0x10FFFF.
Definition surrogateMin : Z := 0xD800.
Definition surrogateMax : Z := 0xDFFF.

Definition locb : Z := 0x80.
Definition hicb : Z := 0xBF.
Definition maskx : Z := 0x3F.
Definition mask2 : Z := 0x1F.
Definition mask3 : Z := 0x0F.
Definition mask4 : Z := 0x07.

(** What the table [first] says of a leading byte. *)
Inductive lead : Type :=
| Ascii
| Invalid
| Lead (size : Z) (lo hi : Z).

Definition first (b : Z) : lead :=
  if b <? 0x80 then Ascii
  else if b <? 0xC2 then Invalid
  else if b <? 0xE0 then Lead 2 locb hicb
  else if b =? 0xE0 then Lead 3 0xA0 hicb
  else if b <? 0xED then Lead 3 locb hicb
  else if b =? 0xED then Lead 3 locb 0x9F
  else if b <? 0xF0 then Lead 3 locb hicb
  else if b =? 0xF0 then Lead 4 0x90 hicb
  else if b <? 0xF4 then Lead 4 locb hicb
  else if b =? 0xF4 then Lead 4 locb 0x8F
  else Invalid.

Definition RuneStart (b : byte) : bool :=
  negb (Z.land (byte_val b) 0xC0 =? 0x80).

Definition DecodeRuneInString (s : gostring) : Z * Z :=
  match s with
  | [] => (RuneError, 0)
  | b0 :: _ =>
      let s0 := byte_val b0 in
      match first s0 with
      | Ascii => (s0, 1)
      | Invalid => (RuneError, 1)
      | Lead sz lo hi =>
          if len s <? sz then (RuneError, 1)
          else
            let s1 := byte_val (at_index s 1) in
            if (s1 <? lo) || (hi <? s1) then (RuneError, 1)
            else if sz <=? 2 then
              (Z.lor (Z.shiftl (Z.land s0 mask2) 6) (Z.land s1 maskx), 2)
            else
              let s2 := byte_val (at_index s 2) in
              if (s2 <? locb) || (hicb <? s2) then (RuneError, 1)
              else if sz <=? 3 then
                (Z.lor (Z.lor (Z.shiftl (Z.land s0 mask3) 12)
                              (Z.shiftl (Z.land s1 maskx) 6))
                       (Z.land s2 maskx), 3)
              else
                let s3 := byte_val (at_index s 3) in
                if (s3 <? locb) || (hicb <? s3) then (RuneError, 1)
                else
                  (Z.lor (Z.lor (Z.lor (Z.shiftl (Z.land s0 mask4) 18)
                                       (Z.shiftl (Z.land s1 maskx) 12))
                                (Z.shiftl (Z.land s2 maskx) 6))
                         (Z.land s3 maskx), 4)
      end
  end.

(** The backward scan [for start--; start >= lim; start--] of
    [DecodeLastRuneInString], entered with [start] already decremented;
    it yields the value of [start] when the loop is left. *)
Fixpoint scanBack (fuel : nat) (s : gostring) (start lim : Z) : Z :=
  match fuel with
  | O => start
  | S fuel' =>
      if start <? lim then start
      else if RuneStart (at_index s start) then start
      else scanBack fuel' s (start - 1) lim
  end.

Definition DecodeLastRuneInString (s : gostring) : Z * Z :=
  let end_ := len s in
  if end_ =? 0 then (RuneError, 0)
  else
    let start := end_ - 1 in
    let r := byte_val (at_index s start) in
    if r <? RuneSelf then (r, 1)
    else
      let lim := if end_ - UTFMax <? 0 then 0 else end_ - UTFMax in
      let start := scanBack (Z.to_nat UTFMax) s (start - 1) lim in
      let start := if start <? 0 then 0 else start in
      let '(r, size) :=
        DecodeRuneInString (skipn (Z.to_nat start) s) in
      if start + size =? end_ then (r, size) else (RuneError, 1).

(** [string(r)]: the UTF-8 encoding of [r], that of [RuneError] when [r]
    is no valid code point. *)
Definition encode (r : Z) : gostring :=
  if (0 <=? r) && (r <=? 0x7F) then [to_byte r]
  else if (0 <=? r) && (r <=? 0x7FF) then
    [to_byte (Z.lor 0xC0 (Z.shiftr r 6));
     to_byte (Z.lor 0x80 (Z.land r maskx))]
  else if (r <? 0) || (MaxRune <? r)
          || ((surrogateMin <=? r) && (r <=? surrogateMax)) then
    [xef; xbf; xbd]
  else if r <=? 0xFFFF then
    [to_byte (Z.lor 0xE0 (Z.shiftr r 12));
     to_byte (Z.lor 0x80 (Z.land (Z.shiftr r 6) maskx));
     to_byte (Z.lor 0x80 (Z.land r maskx))]
  else
    [to_byte (Z.lor 0xF0 (Z.shiftr r 18));
     to_byte (Z.lor 0x80 (Z.land (Z.shiftr r 12) maskx));
     to_byte (Z.lor 0x80 (Z.land (Z.shiftr r 6) maskx));
     to_byte (Z.lor 0x80 (Z.land r maskx))].

End utf8.

(** ** [float64]

    IEEE 754 binary64 with rounding to nearest even, as Go computes. *)
Module float64.

Definition t : Type := spec_float.
Definition prec : Z := 53.
Definition emax : Z := 1024.

(** [float64(i)] *)
Definition of_int (i : Z) : t := binary_normalize prec emax i 0 false.

Definition add : t -> t -> t := SFadd prec emax.
Definition mul : t -> t -> t := SFmul prec emax.
Definition div : t -> t -> t := SFdiv prec emax.

(** The constant [0.5]. *)
Definition half : t := S754_finite false 4503599627370496 (-53).

(** [int(x)]: the fraction is discarded.  Go leaves the result open when
    the value is no [int] (an infinity, a NaN, or too large); the model
    gives [min_int] there, as the amd64 instruction does. *)
Definition to_int (x : t) : Z :=
  match x with
  | S754_zero _ => 0
  | S754_finite s m e =>
      let a := match e with
               | Zneg _ => Z.shiftr (Zpos m) (- e)
               | _ => Z.shiftl (Zpos m) e
               end in
      let v := if s then - a else a in
      if (min_int <=? v) && (v <=? max_int) then v else min_int
  | _ => min_int
  end.

End float64.

(** ** The scrollbar interval *)

(** The closure [f] of [findScrollInterval]. *)
Definition scrollScale (n height i : Z) : Z :=
  float64.to_int
    (float64.add
       (float64.mul (float64.div (float64.of_int i) (float64.of_int n))
                    (float64.of_int height))
       float64.half).

Definition findScrollInterval (n low high height : Z) : Z * Z :=
  let scrollLow := scrollScale n height low in
  let scrollHigh := scrollScale n height high in
  if scrollLow =? scrollHigh then
    if scrollHigh =? high then (isub scrollLow 1, scrollHigh)
    else (scrollLow, iadd scrollHigh 1)
  else (scrollLow, scrollHigh).

(** ** What the listing takes from the rest of the package *)

(** [styled], a text with its style. *)
Record styled : Type := { text : gostring; style : gostring }.

(** [Key], of which the listing reads the rune. *)
Record Key : Type := { Rune : Z; Mod : Z }.

(** The interface [listingProvider].  A provider of type [P] is a value
    that [Filter] replaces, as the method re-evaluates its entries; [Len]
    and [Show] read it.  [asPlaceholderer] is the outcome of the type
    assertion [l.provider.(Placeholderer)]. *)
Class listingProvider (P : Type) : Type := {
  Len : P -> Z;
  Show : P -> Z -> Z -> styled;
  Filter : P -> gostring -> P * Z;
  ModeTitle : P -> Z -> gostring;
  asPlaceholderer : option (P -> gostring)
}.

(** The methods of [buffer] that the listing calls, each returning the
    buffer it has updated. *)
Class bufferOps (buffer : Type) : Type := {
  newBuffer : Z -> buffer;
  writes : buffer -> gostring -> gostring -> buffer;
  write : buffer -> Z -> gostring -> buffer;
  newline : buffer -> buffer;
  extendHorizontal : buffer -> buffer -> Z -> buffer
}.

(** Functions and constants declared in other files of the package. *)
Class package : Type := {
  TrimWcWidth : gostring -> Z -> gostring;
  styleForSelected : gostring;
  styleForScrollBar : gostring;
  likeChar : Key -> bool
}.

(** ** The listing *)

(** The struct [listing] without its field [typ], which only [Mode]
    reads. *)
Record listing (P : Type) : Type := {
  provider : P;
  selected : Z;
  filter : gostring;
  pagesize : Z
}.

Arguments provider {P} _.
Arguments selected {P} _.
Arguments filter {P} _.
Arguments pagesize {P} _.

(** The variables of the collecting loop of [List]; [entries] is the
    doubly linked list, [PushFront] a cons and [PushBack] an append. *)
Record window : Type := {
  low : Z;
  high : Z;
  height : Z;
  entries : list styled;
  extendLow : bool
}.

(** The bytes of ["(no result)"]. *)
Definition noResult : gostring :=
  [x28; x6e; x6f; x20; x72; x65; x73; x75; x6c; x74; x29].

Section Listing.

Context {P : Type} `{listingProvider P}.
Context {buffer : Type} `{bufferOps buffer}.
Context `{package}.

Definition set_selected (l : listing P) (i : Z) : listing P :=
  {| provider := provider l; selected := i;
     filter := filter l; pagesize := pagesize l |}.

Definition set_pagesize (l : listing P) (k : Z) : listing P :=
  {| provider := provider l; selected := selected l;
     filter := filter l; pagesize := k |}.

Definition changeFilter (newfilter : gostring) (l : listing P) : listing P :=
  let '(p, i) := Filter (provider l) newfilter in
  {| provider := p; selected := i;
     filter := newfilter; pagesize := pagesize l |}.

Definition newListing (p : P) : listing P :=
  changeFilter []
    {| provider := p; selected := 0; filter := []; pagesize := 0 |}.

(** *** The scrollbar column *)

Definition thumb : Z := 0x2589.
Definition track : Z := 0x2502.

(** The loop of [renderScrollbar], with [k] rows to go from row [i]. *)
Fixpoint scrollbarRows (k : nat) (i slow shigh : Z) (b : buffer) : buffer :=
  match k with
  | O => b
  | S k' =>
      let b := if 0 <? i then newline b else b in
      let b := if (slow <=? i) && (i <? shigh)
               then write b thumb styleForScrollBar
               else write b track styleForScrollBar in
      scrollbarRows k' (iadd i 1) slow shigh b
  end.

Definition renderScrollbar (n low high height : Z) : buffer :=
  let '(slow, shigh) := findScrollInterval n low high height in
  scrollbarRows (Z.to_nat height) 0 slow shigh (newBuffer 1).

(** *** Collecting the window *)

Definition getEntry (p : P) (width i : Z) : styled * Z :=
  let s := Show p i width in
  (s, iadd (strings.Count (text s) nl) 1).

Definition windowStart (l : listing P) : window :=
  let low := if selected l =? -1 then 0 else selected l in
  {| low := low; high := low; height := 0;
     entries := []; extendLow := false |}.

Definition windowCond (n maxHeight : Z) (st : window) : bool :=
  (height st <? maxHeight) && negb ((low st =? 0) && (high st =? n)).

(** One turn of the loop. *)
Definition extend (p : P) (n width maxHeight : Z) (st : window)
  : res window :=
  if (extendLow st && (0 <? low st)) || (high st =? n) then
    let low' := isub (low st) 1 in
    let '(s, h) := getEntry p width low' in
    let height' := iadd (height st) h in
    '(s, height') <-
      (if maxHeight <? height' then
         let lines := strings.Split (text s) nl in
         kept <- slice_from lines (isub height' maxHeight) ;;
         Ok ({| text := strings.Join kept nl; style := style s |},
             maxHeight)
       else Ok (s, height')) ;;
    Ok {| low := low'; high := high st; height := height';
          entries := s :: entries st; extendLow := negb (extendLow st) |}
  else
    let '(s, h) := getEntry p width (high st) in
    let height' := iadd (height st) h in
    '(s, height') <-
      (if maxHeight <? height' then
         let lines := strings.Split (text s) nl in
         kept <- slice_to lines
                   (isub (len lines) (isub height' maxHeight)) ;;
         Ok ({| text := strings.Join kept nl; style := style s |},
             maxHeight)
       else Ok (s, height')) ;;
    Ok {| low := low st; high := iadd (high st) 1; height := height';
          entries := entries st ++ [s];
          extendLow := negb (extendLow st) |}.

(** The loop [for height < maxHeight && !(low == 0 && high == n)].  Each
    turn adds at least one line to [height] or sets it to [maxHeight], so
    [maxHeight] turns are enough as long as no sum wraps; [List] gives the
    loop that much fuel. *)
Fixpoint collect (fuel : nat) (p : P) (n width maxHeight : Z) (st : window)
  : res window :=
  if windowCond n maxHeight st then
    match fuel with
    | O => OutOfFuel
    | S fuel' =>
        st' <- extend p n width maxHeight st ;;
        collect fuel' p n width maxHeight st'
    end
  else Ok st.

(** The loop [for i := low; i < high; i++] that writes the entries, with
    [k] entries to go from index [i]; [q] is the list element [p] of the
    source, nil when the list is used up. *)
Fixpoint writeEntries (k : nat) (i low sel : Z) (q : list styled)
  (b : buffer) : res buffer :=
  match k with
  | O => Ok b
  | S k' =>
      let b := if low <? i then newline b else b in
      match q with
      | [] => Panic
      | s :: q' =>
          let sty := if i =? sel then style s ++ styleForSelected
                     else style s in
          writeEntries k' (iadd i 1) low sel q' (writes b (text s) sty)
      end
  end.

(** The outcome of a render: the buffer, the listing with its new page
    size, and what the scrollbar step did (the window, the scrollbar when
    one was drawn, and the width left for the entries). *)
Record rendered : Type := {
  out : buffer;
  after : listing P;
  shown : option window;
  scrollbar : option buffer;
  body_width : Z
}.

Definition List (width maxHeight : Z) (l : listing P) : res rendered :=
  let n := Len (provider l) in
  let b := newBuffer width in
  if n =? 0 then
    let ph := match asPlaceholderer with
              | Some Placeholder => Placeholder (provider l)
              | None => noResult
              end in
    Ok {| out := writes b (TrimWcWidth ph width) [];
          after := l; shown := None; scrollbar := None;
          body_width := width |}
  else
    st <- collect (Z.to_nat maxHeight) (provider l) n width maxHeight
            (windowStart l) ;;
    let l := set_pagesize l (isub (high st) (low st)) in
    let '(scrollbar, width) :=
      if (0 <? low st) || (high st <? isub n 1)
      then (Some (renderScrollbar n (low st) (high st) (height st)),
            isub width 1)
      else (None, width) in
    b <- writeEntries (Z.to_nat (high st - low st)) (low st) (low st)
           (selected l) (entries st) b ;;
    let b := match scrollbar with
             | Some sb => extendHorizontal b sb width
             | None => b
             end in
    Ok {| out := b; after := l; shown := Some st;
          scrollbar := scrollbar; body_width := width |}.

(** *** The filter *)

Definition backspace (l : listing P) : res (bool * listing P) :=
  let '(_, size) := utf8.DecodeLastRuneInString (filter l) in
  if 0 <? size then
    shorter <- slice_to (filter l) (isub (len (filter l)) size) ;;
    Ok (true, changeFilter shorter l)
  else Ok (false, l).

Definition handleFilterKey (k : Key) (l : listing P) : bool * listing P :=
  if likeChar k
  then (true, changeFilter (filter l ++ utf8.encode (Rune k)) l)
  else (false, l).

(** *** Moving the selection *)

Definition up (cycle : bool) (l : listing P) : listing P :=
  let n := Len (provider l) in
  if n =? 0 then l
  else
    let l := set_selected l (isub (selected l) 1) in
    if selected l =? -1 then
      if cycle then set_selected l (iadd (selected l) n)
      else set_selected l (iadd (selected l) 1)
    else l.

Definition pageUp (l : listing P) : listing P :=
  let n := Len (provider l) in
  if n =? 0 then l
  else
    let l := set_selected l (isub (selected l) (pagesize l)) in
    if selected l <? 0 then set_selected l 0 else l.

Definition down (cycle : bool) (l : listing P) : listing P :=
  let n := Len (provider l) in
  if n =? 0 then l
  else
    let l := set_selected l (iadd (selected l) 1) in
    if selected l =? n then
      if cycle then set_selected l (isub (selected l) n)
      else set_selected l (isub (selected l) 1)
    else l.

Definition pageDown (l : listing P) : listing P :=
  let n := Len (provider l) in
  if n =? 0 then l
  else
    let l := set_selected l (iadd (selected l) (pagesize l)) in
    if n <=? selected l then set_selected l (isub n 1) else l.

End Listing.

(** ** Sequences of navigation calls *)

Inductive move : Type :=
| Up (cycle : bool)
| Down (cycle : bool)
| PageUp
| PageDown.

Section Moves.

Context {P : Type} `{listingProvider P}.

Definition step (l : listing P) (m : move) : listing P :=
  match m with
  | Up cycle => up cycle l
  | Down cycle => down cycle l
  | PageUp => pageUp l
  | PageDown => pageDown l
  end.

Definition run (ms : list move) (l : listing P) : listing P :=
  fold_left step ms l.

Definition count (l : listing P) : Z := Len (provider l).

(** A listing state with its selection in place: the selection is an
    index of the entries, or -1 when there are none; the page size is
    that of an earlier render, and the indices it is added to stay within
    [int]. *)
Definition validState (l : listing P) : Prop :=
  0 <= count l
  /\ -1 <= selected l <= count l - 1
  /\ (0 < count l -> 0 <= selected l)
  /\ 0 <= pagesize l
  /\ count l + pagesize l <= max_int.

End Moves.

(** ** Sample instances *)

(** A buffer that records the calls made on it. *)
Inductive recorder : Type :=
| RnewBuffer (width : Z)
| Rwrites (b : recorder) (text style : gostring)
| Rwrite (b : recorder) (r : Z) (style : gostring)
| Rnewline (b : recorder)
| RextendHorizontal (b b2 : recorder) (w : Z).

#[export] Instance recorderOps : bufferOps recorder := {|
  newBuffer := RnewBuffer;
  writes := Rwrites;
  write := Rwrite;
  newline := Rnewline;
  extendHorizontal := RextendHorizontal
|}.

Fixpoint hasPrefix (s prefix : gostring) : bool :=
  match prefix, s with
  | [], _ => true
  | _ :: _, [] => false
  | c :: prefix', d :: s' => Byte.eqb c d && hasPrefix s' prefix'
  end.

(** A provider over a fixed list of candidates; its value is the list of
    the entries that pass the filter. *)
Definition candidateProvider (candidates : list gostring)
  : listingProvider (list gostring) := {|
  Len p := len p;
  Show p i w := {| text := nth (Z.to_nat i) p []; style := [] |};
  Filter p f :=
    let q := List.filter (fun s => hasPrefix s f) candidates in
    (q, match q with [] => -1 | _ => 0 end);
  ModeTitle p i := [];
  asPlaceholderer := None
|}.

(** "ab", "a" newline "c" newline "d", and "b". *)
Definition sampleEntries : list gostring :=
  [[x61; x62]; [x61; x0a; x63; x0a; x64]; [x62]].

#[export] Instance sampleProvider : listingProvider (list gostring) :=
  candidateProvider sampleEntries.

#[export] Instance samplePackage : package := {|
  TrimWcWidth s w := firstn (Z.to_nat w) s;
  styleForSelected := [x37];
  styleForScrollBar := [x33];
  likeChar k := (Mod k =? 0) && (0x20 <=? Rune k)
|}.

(** ** Auxiliary definitions for the proofs *)

(** [p] holds of every integer from 0 up to [n - 1]. *)
Fixpoint all_below (n : nat) (p : Z -> bool) : bool :=
  match n with
  | O => true
  | S n' => p (Z.of_nat n') && all_below n' p
  end.

(** A provider whose [Filter] picks the selection from the filter text
    alone. *)
Definition deterministic {P : Type} `{listingProvider P} : Prop :=
  forall (p p' : P) (t : gostring), snd (Filter p t) = snd (Filter p' t).

Section WindowTerms.

Context {P : Type} `{listingProvider P}.

(** The number of lines of an entry. *)
Definition lineCount (s : styled) : Z := strings.Count (text s) nl + 1.

Definition entryLines (p : P) (width i : Z) : Z :=
  lineCount (Show p i width).

(** The lines of the entries collected so far. *)
Definition totalLines (es : list styled) : Z :=
  fold_right (fun s acc => lineCount s + acc) 0 es.

(** The lines of the [k] entries from index [i] on, as the provider
    shows them. *)
Fixpoint linesFrom (p : P) (width : Z) (k : nat) (i : Z) : Z :=
  match k with
  | O => 0
  | S k' => entryLines p width i + linesFrom p width k' (i + 1)
  end.

(** The index the window is built around. *)
Definition seed (l : listing P) : Z :=
  if selected l =? -1 then 0 else selected l.

(** The test that sends a turn of the loop to the low end. *)
Definition extendsLow (n : Z) (st : window) : bool :=
  (extendLow st && (0 <? low st)) || (high st =? n).

(** The sums that [List] and the page moves form stay within [int]. *)
Definition fitsInt (p : P) (width maxHeight : Z) : Prop :=
  Len p + maxHeight <= max_int
  /\ forall i, 0 <= i < Len p ->
               maxHeight + entryLines p width i <= max_int.

(** What a turn of the loop adds: the entry, cut to the [budget] lines
    that still fit, the last ones at the low end and the first ones at
    the high end. *)
Definition cutTo (budget : Z) (fromLow : bool) (s : styled) : styled :=
  let lines := strings.Split (text s) nl in
  if budget <? lineCount s then
    {| text := strings.Join
                 (if fromLow
                  then skipn (Z.to_nat (lineCount s - budget)) lines
                  else firstn (Z.to_nat budget) lines) nl;
       style := style s |}
  else s.

(** The invariant of the collecting loop around the index [sd]: the
    window lies within the entries and holds [sd] once an entry was
    collected, and [height] counts the lines of the collected entries. *)
Definition windowInv (n maxHeight sd : Z) (st : window) : Prop :=
  0 <= low st /\ low st <= sd /\ high st <= n
  /\ (sd < high st
      \/ (high st = sd /\ low st = sd /\ extendLow st = false))
  /\ 0 <= height st <= maxHeight
  /\ len (entries st) = high st - low st
  /\ totalLines (entries st) = height st.

(** No entry of the window was cut. *)
Definition windowExact (p : P) (width : Z) (st : window) : Prop :=
  height st = linesFrom p width (Z.to_nat (high st - low st)) (low st).

End WindowTerms.

Section RenderTerms.

Context {P : Type} `{listingProvider P}.
Context {buffer : Type} `{bufferOps buffer}.
Context `{package}.

(** What [List] returns once the window [st] is collected. *)
Definition listed (width : Z) (l : listing P) (st : window) (body : buffer)
  : rendered :=
  let n := Len (provider l) in
  let bar := (0 <? low st) || (high st <? isub n 1) in
  let sb := renderScrollbar n (low st) (high st) (height st) in
  {| out := if bar then extendHorizontal body sb (isub width 1) else body;
     after := set_pagesize l (isub (high st) (low st));
     shown := Some st;
     scrollbar := if bar then Some sb else None;
     body_width := if bar then isub width 1 else width |}.

End RenderTerms.

(** The sample provider as the listing mode starts on it, with its first
    entry selected. *)
Definition sampleListing : listing (list gostring) :=
  newListing sampleEntries.

(** The same entries with nothing selected. *)
Definition unselectedListing : listing (list gostring) :=
  {| provider := sampleEntries; selected := -1; filter := []; pagesize := 0 |}.

(** The sample provider after the filter "z", which no entry passes. *)
Definition emptyListing : listing (list gostring) :=
  changeFilter [x7a] sampleListing.

(** The key of the letter e with an acute accent, two bytes in UTF-8. *)
Definition sampleKey : Key := {| Rune := 0xE9; Mod := 0 |}.

(** A character as Go writes it: one byte below 0x80, or a leading byte
    followed by continuation bytes that decode as a whole. *)
Definition wellFormed (e : gostring) : Prop :=
  (exists b, e = [b] /\ byte_val b < 0x80)
  \/ (2 <= len e <= 4
      /\ utf8.RuneStart (at_index e 0) = true
      /\ (forall k, 1 <= k < len e -> utf8.RuneStart (at_index e k) = false)
      /\ snd (utf8.DecodeRuneInString e) = len e).

(** A provider that keeps its entries whatever the filter is and selects
    none of them: [Filter] returns -1. *)
Record unselecting : Type := { held : list gostring }.

#[export] Instance unselectingProvider
  : listingProvider unselecting | 10 := {|
  Len p := len (held p);
  Show p i w := {| text := nth (Z.to_nat i) (held p) []; style := [] |};
  Filter p f := (p, -1);
  ModeTitle p i := [];
  asPlaceholderer := None
|}.

(** The listing mode as it starts on such a provider with the sample
    entries. *)
Definition heldListing : listing unselecting :=
  newListing {| held := sampleEntries |}.

(** ** Runs of filter operations *)

(** The text of the runes [rs], each as [string(r)] writes it. *)
Definition encodeAll (rs : list Z) : gostring := concat (map utf8.encode rs).

(** What the user does to the filter: a key, or the backspace. *)
Inductive filterOp : Type :=
| TypeKey (k : Key)
| DeleteChar.

Section FilterRuns.

Context {P : Type} `{listingProvider P}.
Context `{package}.

(** [k] calls of [backspace] in a row, with what each returned. *)
Fixpoint backspaces (k : nat) (l : listing P) : res (list bool * listing P) :=
  match k with
  | O => Ok ([], l)
  | S k' =>
      '(b, l) <- backspace l ;;
      '(bs, l) <- backspaces k' l ;;
      Ok (b :: bs, l)
  end.

(** The keys [ks] given to [handleFilterKey] one after the other. *)
Definition typeKeys (ks : list Key) (l : listing P) : listing P :=
  fold_left (fun l k => snd (handleFilterKey k l)) ks l.

Definition filterStep (l : listing P) (op : filterOp) : res (listing P) :=
  match op with
  | TypeKey k => Ok (snd (handleFilterKey k l))
  | DeleteChar => '(_, l) <- backspace l ;; Ok l
  end.

Fixpoint filterRun (ops : list filterOp) (l : listing P) : res (listing P) :=
  match ops with
  | [] => Ok l
  | op :: ops' => l <- filterStep l op ;; filterRun ops' l
  end.

(** The filter text is made of whole characters. *)
Definition wholeChars (l : listing P) : Prop :=
  exists rs, filter l = encodeAll rs.

End FilterRuns.

(** ** The shape of the window *)

(** The [k] indices from [lo] on. *)
Fixpoint Zrange (lo : Z) (k : nat) : list Z :=
  match k with
  | O => []
  | S k' => lo :: Zrange (lo + 1) k'
  end.

Section WindowShapes.

Context {P : Type} `{listingProvider P}.

(** The [k] entries from index [lo] on, as the provider shows them. *)
Definition shownEntries (p : P) (width lo : Z) (k : nat) : list styled :=
  map (fun i => Show p i width) (Zrange lo k).

(** Away from both ends of the list the window has as many entries before
    the seed [sd] as after it, or one more. *)
Definition windowBalanced (n sd : Z) (st : window) : Prop :=
  0 < low st -> high st < n ->
  (high st - sd) - (sd - low st) = if extendLow st then 1 else 0.

(** While the height is not used up, the entries are the provider's. *)
Definition windowUncut (p : P) (width maxHeight : Z) (st : window) : Prop :=
  height st < maxHeight ->
  entries st
  = shownEntries p width (low st) (Z.to_nat (high st - low st))
  /\ height st
     = linesFrom p width (Z.to_nat (high st - low st)) (low st).

(** The entries are the provider's in the order of their indices, all in
    full but the one at the end where the window grew last, which is cut
    to the lines that the others leave of the height. *)
Definition cutAtEnd (p : P) (width maxHeight : Z) (st : window) : Prop :=
  let k := Z.to_nat (high st - low st - 1) in
  (high st = low st /\ entries st = [])
  \/ (low st < high st
      /\ entries st
         = cutTo (maxHeight - linesFrom p width k (low st + 1)) true
             (Show p (low st) width)
           :: shownEntries p width (low st + 1) k)
  \/ (low st < high st
      /\ entries st
         = shownEntries p width (low st) k
           ++ [cutTo (maxHeight - linesFrom p width k (low st)) false
                 (Show p (high st - 1) width)]).

End WindowShapes.

(** ** What a recorded buffer shows *)

(** What a recorded buffer holds: texts and single runes, with their
    styles. *)
Inductive piece : Type :=
| Text (t sty : gostring)
| Glyph (r : Z) (sty : gostring).

(** [x] put after the last piece of the last line. *)
Definition addPiece (ls : list (list piece)) (x : piece) : list (list piece) :=
  removelast ls ++ [last ls [] ++ [x]].

(** The lines of a recorded buffer: [newline] opens a line, [writes] and
    [write] add to the last one; what [extendHorizontal] puts beside the
    lines is left out. *)
Fixpoint linesOf (b : recorder) : list (list piece) :=
  match b with
  | RnewBuffer _ => [[]]
  | Rwrites b t sty => addPiece (linesOf b) (Text t sty)
  | Rwrite b r sty => addPiece (linesOf b) (Glyph r sty)
  | Rnewline b => linesOf b ++ [[]]
  | RextendHorizontal b _ _ => linesOf b
  end.

(** The row of the scrollbar at index [i]. *)
Definition scrollbarRow `{package} (slow shigh i : Z) : list piece :=
  [Glyph (if (slow <=? i) && (i <? shigh) then thumb else track)
     styleForScrollBar].

(** The line of the entry [s] at index [i], for the selection [sel]. *)
Definition entryRow `{package} (sel : Z) (x : Z * styled) : list piece :=
  [Text (text (snd x))
     (if fst x =? sel then style (snd x) ++ styleForSelected
      else style (snd x))].

(** The rows from [lo] on that are in the interval. *)
Fixpoint thumbRows (slow shigh lo : Z) (k : nat) : Z :=
  match k with
  | O => 0
  | S k' => (if (slow <=? lo) && (lo <? shigh) then 1 else 0)
            + thumbRows slow shigh (lo + 1) k'
  end.

Definition isThumb (x : piece) : bool :=
  match x with
  | Glyph r _ => r =? thumb
  | Text _ _ => false
  end.

(** ** Accepting, the default key, and the registries *)

(** The names under which the listing registers its builtins. *)
Module names.
Import String.
Definition up : gostring := Eval cbv in list_byte_of_string "up".
Definition up_cycle : gostring := Eval cbv in list_byte_of_string "up-cycle".
Definition page_up : gostring := Eval cbv in list_byte_of_string "page-up".
Definition down : gostring := Eval cbv in list_byte_of_string "down".
Definition down_cycle : gostring :=
  Eval cbv in list_byte_of_string "down-cycle".
Definition page_down : gostring :=
  Eval cbv in list_byte_of_string "page-down".
Definition backspace : gostring :=
  Eval cbv in list_byte_of_string "backspace".
Definition accept : gostring := Eval cbv in list_byte_of_string "accept".
Definition default : gostring := Eval cbv in list_byte_of_string "default".
Definition start_insert : gostring :=
  Eval cbv in list_byte_of_string "start-insert".
End names.

(** What the listing needs of the editor, which is declared in other
    files: the method [Accept] of the provider, which acts on the editor,
    the key read last, [startInsert], and the assignment
    [ed.nextAction = action{typ: reprocessKey}]. *)
Class editorOps (P E : Type) : Type := {
  Accept : P -> Z -> E -> E;
  lastKey : E -> Key;
  startInsert : E -> E;
  reprocessKey : E -> E
}.

(** The key constants, declared in another file of the package. *)
Module Keys.
Class t : Type := {
  Up : Z;
  PageUp : Z;
  Down : Z;
  PageDown : Z;
  Tab : Z;
  Backspace : Z;
  Enter : Z;
  Default : Key;
  Ctrl : Z
}.
End Keys.

(** A table of bindings, [map[Key]string]. *)
Definition bindings : Type := Key -> option gostring.

Definition Key_eqb (a b : Key) : bool :=
  (Rune a =? Rune b) && (Mod a =? Mod b).

Definition setKey (m : bindings) (k : Key) (v : gostring) : bindings :=
  fun k' => if Key_eqb k' k then Some v else m k'.

(** [tbl[k]] with its [ok], on a table that may be nil. *)
Definition lookup (tbl : option bindings) (k : Key) : option gostring :=
  match tbl with
  | Some m => m k
  | None => None
  end.

(** [tbl[k] = v], which panics on a nil table. *)
Definition assign (tbl : option bindings) (k : Key) (v : gostring)
  : res (option bindings) :=
  match tbl with
  | Some m => Ok (Some (setKey m k v))
  | None => Panic
  end.

(** The closures that [addListingBuiltins] registers, each named by the
    method it calls on the listing of the editor. *)
Inductive listingCall : Type :=
| CallUp (cycle : bool)
| CallPageUp
| CallDown (cycle : bool)
| CallPageDown
| CallBackspace
| CallAccept
| CallDefault.

Record Builtin : Type := { name : gostring; impl : listingCall }.

(** The key Ctrl-[. *)
Definition ctrlBracket `{Keys.t} : Key := {| Rune := 0x5B; Mod := Keys.Ctrl |}.

Section Registries.

Context {P E : Type} `{listingProvider P} `{editorOps P E}.
Context `{package} `{Keys.t}.

Definition accept (l : listing P) (ed : E) : E :=
  if 0 <=? selected l then Accept (provider l) (selected l) ed else ed.

Definition defaultBinding (l : listing P) (ed : E) : listing P * E :=
  let '(handled, l) := handleFilterKey (lastKey ed) l in
  if negb handled then (l, reprocessKey (startInsert ed)) else (l, ed).

(** The closure [add] of [addListingBuiltins]. *)
Definition addBuiltin (prefix : gostring) (nm : gostring) (f : listingCall)
  (builtins : list Builtin) : list Builtin :=
  builtins ++ [{| name := prefix ++ nm; impl := f |}].

Definition addListingBuiltins (prefix : gostring) (builtins : list Builtin)
  : list Builtin :=
  let add := addBuiltin prefix in
  let builtins := add names.up (CallUp false) builtins in
  let builtins := add names.up_cycle (CallUp true) builtins in
  let builtins := add names.page_up CallPageUp builtins in
  let builtins := add names.down (CallDown false) builtins in
  let builtins := add names.down_cycle (CallDown true) builtins in
  let builtins := add names.page_down CallPageDown builtins in
  let builtins := add names.backspace CallBackspace builtins in
  let builtins := add names.accept CallAccept builtins in
  add names.default CallDefault builtins.

(** What a registered closure does to the listing and the editor. *)
Definition perform (f : listingCall) (l : listing P) (ed : E)
  : res (listing P * E) :=
  match f with
  | CallUp cycle => Ok (up cycle l, ed)
  | CallPageUp => Ok (pageUp l, ed)
  | CallDown cycle => Ok (down cycle l, ed)
  | CallPageDown => Ok (pageDown l, ed)
  | CallBackspace => '(_, l) <- backspace l ;; Ok (l, ed)
  | CallAccept => Ok (l, accept l ed)
  | CallDefault => Ok (defaultBinding l ed)
  end.

(** The closure [add] of [addListingDefaultBindings], on the table
    [defaultBindings[m]]. *)
Definition addDefault (prefix : gostring) (k : Key) (nm : gostring)
  (tbl : option bindings) : res (option bindings) :=
  match lookup tbl k with
  | Some _ => Ok tbl
  | None => assign tbl k (prefix ++ nm)
  end.

Definition plain (r : Z) : Key := {| Rune := r; Mod := 0 |}.

Definition addListingDefaultBindings (prefix : gostring)
  (tbl : option bindings) : res (option bindings) :=
  let add := addDefault prefix in
  tbl <- add (plain Keys.Up) names.up tbl ;;
  tbl <- add (plain Keys.PageUp) names.page_up tbl ;;
  tbl <- add (plain Keys.Down) names.down tbl ;;
  tbl <- add (plain Keys.PageDown) names.page_down tbl ;;
  tbl <- add (plain Keys.Tab) names.down_cycle tbl ;;
  tbl <- add (plain Keys.Backspace) names.backspace tbl ;;
  tbl <- add (plain Keys.Enter) names.accept tbl ;;
  tbl <- add Keys.Default names.default tbl ;;
  assign tbl ctrlBracket names.start_insert.

(** The keys that [addListingDefaultBindings] binds when they are free,
    with the names it gives them. *)
Definition defaultKeys : list (Key * gostring) :=
  [(plain Keys.Up, names.up); (plain Keys.PageUp, names.page_up);
   (plain Keys.Down, names.down); (plain Keys.PageDown, names.page_down);
   (plain Keys.Tab, names.down_cycle);
   (plain Keys.Backspace, names.backspace);
   (plain Keys.Enter, names.accept); (Keys.Default, names.default)].

(** The binding of [k] when it is free. *)
Definition bindFree (prefix : gostring) (m : bindings) (kn : Key * gostring)
  : bindings :=
  match m (fst kn) with
  | Some _ => m
  | None => setKey m (fst kn) (prefix ++ snd kn)
  end.

End Registries.

(** An editor that keeps the indices it was asked to accept. *)
#[export] Instance sampleEditor : editorOps (list gostring) (list Z) := {|
  Accept p i ed := i :: ed;
  lastKey ed := sampleKey;
  startInsert ed := ed;
  reprocessKey ed := ed
|}.

(** Key constants for the samples: the function keys below zero, the
    control characters as they are, Ctrl as the third modifier bit. *)
#[export] Instance sampleKeys : Keys.t := {|
  Keys.Up := -13;
  Keys.PageUp := -21;
  Keys.Down := -14;
  Keys.PageDown := -22;
  Keys.Tab := 9;
  Keys.Backspace := 127;
  Keys.Enter := 10;
  Keys.Default := {| Rune := -23; Mod := 0 |};
  Keys.Ctrl := 4
|}.

(** The sample provider with its second entry selected and a page of two
    entries. *)
Definition pagedListing : listing (list gostring) :=
  {| provider := sampleEntries; selected := 1; filter := []; pagesize := 2 |}.

(** Five entries of one line each, the third one selected. *)
Definition fiveListing : listing (list gostring) :=
  {| provider := [[x61]; [x62]; [x63]; [x64]; [x65]];
     selected := 2; filter := []; pagesize := 0 |}.

(** ** Integers within range *)

Lemma max_int_val : max_int = 9223372036854775807.
Proof. reflexivity. Qed.

Lemma min_int_val : min_int = -9223372036854775808.
Proof. reflexivity. Qed.

Lemma wrap_id (z : Z) : min_int <= z <= max_int -> wrap z = z.
Proof.
  rewrite max_int_val, min_int_val. intros Hz. unfold wrap.
  change (2 ^ 63) with 9223372036854775808.
  change (2 ^ 64) with 18446744073709551616.
  rewrite Z.mod_small; lia.
Qed.

Lemma iadd_id (a b : Z) : min_int <= a + b <= max_int -> iadd a b = a + b.
Proof. apply wrap_id. Qed.

Lemma isub_id (a b : Z) : min_int <= a - b <= max_int -> isub a b = a - b.
Proof. apply wrap_id. Qed.

Ltac int_lia := rewrite ?max_int_val, ?min_int_val in *; lia.

(** Drops the wrap-around where the sum is seen to fit. *)
Ltac ints :=
  repeat match goal with
    | |- context [iadd ?a ?b] => rewrite (iadd_id a b) by int_lia
    | |- context [isub ?a ?b] => rewrite (isub_id a b) by int_lia
    end.

Ltac bools :=
  repeat match goal with
    | |- context [?a =? ?b] => destruct (Z.eqb_spec a b)
    | |- context [?a <? ?b] => destruct (Z.ltb_spec a b)
    | |- context [?a <=? ?b] => destruct (Z.leb_spec a b)
    end.

(** ** Moving the selection *)

Section MovesFacts.

Context {P : Type} `{listingProvider P}.

Lemma up_selected (cycle : bool) (l : listing P) :
  validState l -> 0 < count l ->
  selected (up cycle l)
  = if selected l =? 0 then (if cycle then count l - 1 else 0)
    else selected l - 1.
Proof.
  unfold validState, count, up. intros (Hn & Hs & Hs0 & Hp & Hb) Hpos.
  destruct (Z.eqb_spec (Len (provider l)) 0); [lia|].
  cbn. ints. bools; cbn; ints; destruct cycle; cbn; ints; lia.
Qed.

Lemma down_selected (cycle : bool) (l : listing P) :
  validState l -> 0 < count l ->
  selected (down cycle l)
  = if selected l =? count l - 1 then (if cycle then 0 else count l - 1)
    else selected l + 1.
Proof.
  unfold validState, count, down. intros (Hn & Hs & Hs0 & Hp & Hb) Hpos.
  destruct (Z.eqb_spec (Len (provider l)) 0); [lia|].
  cbn. ints. bools; cbn; ints; destruct cycle; cbn; ints; lia.
Qed.

Lemma pageUp_selected (l : listing P) :
  validState l -> 0 < count l ->
  selected (pageUp l) = Z.max 0 (selected l - pagesize l).
Proof.
  unfold validState, count, pageUp. intros (Hn & Hs & Hs0 & Hp & Hb) Hpos.
  destruct (Z.eqb_spec (Len (provider l)) 0); [lia|].
  cbn. ints. bools; cbn; ints; lia.
Qed.

Lemma pageDown_selected (l : listing P) :
  validState l -> 0 < count l ->
  selected (pageDown l) = Z.min (count l - 1) (selected l + pagesize l).
Proof.
  unfold validState, count, pageDown. intros (Hn & Hs & Hs0 & Hp & Hb) Hpos.
  destruct (Z.eqb_spec (Len (provider l)) 0); [lia|].
  cbn. ints. bools; cbn; ints; lia.
Qed.

(** A move touches the selection only. *)
Lemma step_frame (l : listing P) (m : move) :
  provider (step l m) = provider l
  /\ pagesize (step l m) = pagesize l
  /\ filter (step l m) = filter l.
Proof.
  destruct m as [c|c| |]; cbn;
    unfold up, down, pageUp, pageDown;
    destruct (Len (provider l) =? 0); auto; cbn;
    repeat match goal with
      | |- context [if ?b then _ else _] => destruct b; cbn
      end; auto.
Qed.

Lemma step_empty (l : listing P) (m : move) :
  count l = 0 -> step l m = l.
Proof.
  unfold count. intros H0.
  destruct m; cbn; unfold up, down, pageUp, pageDown; rewrite H0; reflexivity.
Qed.

Lemma step_valid (l : listing P) (m : move) :
  validState l -> validState (step l m).
Proof.
  intros Hv. destruct (Z.eq_dec (count l) 0) as [H0|H0].
  - rewrite step_empty; assumption.
  - assert (Hpos : 0 < count l) by (unfold validState in Hv; lia).
    destruct (step_frame l m) as (Hp & Hps & _).
    assert (Hsel : 0 <= selected (step l m) <= count l - 1).
    { unfold validState in Hv.
      destruct m as [c|c| |]; cbn.
      - rewrite up_selected by assumption.
        destruct (Z.eqb_spec (selected l) 0); destruct c; lia.
      - rewrite down_selected by assumption.
        destruct (Z.eqb_spec (selected l) (count l - 1)); destruct c; lia.
      - rewrite pageUp_selected by assumption. lia.
      - rewrite pageDown_selected by assumption. lia. }
    unfold validState, count in *. rewrite Hp, Hps. lia.
Qed.

Lemma run_valid (ms : list move) (l : listing P) :
  validState l -> validState (run ms l) /\ count (run ms l) = count l.
Proof.
  revert l. induction ms as [|m ms IH]; intros l Hv; cbn.
  - split; [assumption|reflexivity].
  - destruct (IH (step l m) (step_valid l m Hv)) as [Hv' Hc].
    split; [exact Hv'|].
    unfold run in Hc. rewrite Hc. unfold count.
    destruct (step_frame l m) as (Hp & _). now rewrite Hp.
Qed.

(** Without a selection and with entries to show, [up] leaves the range
    of the indices: the state is outside of [validState]. *)
Lemma up_without_selection (cycle : bool) (l : listing P) :
  0 < count l <= max_int -> selected l = -1 ->
  selected (up cycle l) = -2.
Proof.
  unfold count, up. intros Hn Hs.
  destruct (Z.eqb_spec (Len (provider l)) 0); [lia|].
  cbn. rewrite Hs. reflexivity.
Qed.

(** X20: from a state whose selection is an index of the entries, or -1
    when there are none, any sequence of up, down, pageUp and pageDown
    keeps such a state, so the selection stays within [-1, count-1]; at
    index 0 [up] goes to count-1 when it cycles and stays otherwise, at
    count-1 [down] goes to 0 when it cycles and stays otherwise, so the
    selection wraps exactly when cycle is true; pageUp and pageDown clamp
    to 0 and to count-1; with no entries all four leave the listing as it
    is. *)
Theorem navigation_in_range (l : listing P) :
  validState l ->
  (forall ms,
      validState (run ms l)
      /\ count (run ms l) = count l
      /\ -1 <= selected (run ms l) <= count l - 1)
  /\ (forall cycle, 0 < count l ->
      selected (up cycle l)
      = if selected l =? 0 then (if cycle then count l - 1 else 0)
        else selected l - 1)
  /\ (forall cycle, 0 < count l ->
      selected (down cycle l)
      = if selected l =? count l - 1
        then (if cycle then 0 else count l - 1)
        else selected l + 1)
  /\ (forall cycle, 1 < count l -> selected l = 0 ->
      (selected (up cycle l) = count l - 1 <-> cycle = true))
  /\ (forall cycle, 1 < count l -> selected l = count l - 1 ->
      (selected (down cycle l) = 0 <-> cycle = true))
  /\ (0 < count l ->
      selected (pageUp l) = Z.max 0 (selected l - pagesize l)
      /\ selected (pageDown l)
         = Z.min (count l - 1) (selected l + pagesize l))
  /\ (count l = 0 -> forall m, step l m = l).
Proof.
  intros Hv.
  split; [|split; [|split; [|split; [|split; [|split]]]]].
  - intros ms. destruct (run_valid ms l Hv) as [Hv' Hc].
    split; [exact Hv'|split; [exact Hc|]].
    unfold validState in Hv'. lia.
  - intros cycle Hpos. now apply up_selected.
  - intros cycle Hpos. now apply down_selected.
  - intros cycle Hn Hs. rewrite up_selected, Hs by (assumption || lia).
    cbn. destruct cycle; split; intros; (reflexivity || lia || discriminate).
  - intros cycle Hn Hs.
    rewrite down_selected, Hs, Z.eqb_refl by (assumption || lia).
    destruct cycle; split; intros; (reflexivity || lia || discriminate).
  - intros Hpos. split; [now apply pageUp_selected|now apply pageDown_selected].
  - intros H0 m. now apply step_empty.
Qed.

End MovesFacts.

(** ** Bytes and indices *)

Lemma byte_val_range (b : byte) : 0 <= byte_val b < 256.
Proof. unfold byte_val. pose proof (Byte.to_N_bounded b). lia. Qed.

Lemma byte_val_to_byte (v : Z) : 0 <= v < 256 -> byte_val (to_byte v) = v.
Proof.
  intros Hv. unfold to_byte, byte_val. rewrite Z.mod_small by lia.
  destruct (Byte.of_N (Z.to_N v)) as [b|] eqn:E.
  - apply Byte.to_of_N in E. rewrite E. lia.
  - apply Byte.of_N_None_iff in E. lia.
Qed.

Lemma all_below_spec (n : nat) (p : Z -> bool) :
  all_below n p = true -> forall z, 0 <= z < Z.of_nat n -> p z = true.
Proof.
  induction n as [|n IH]; cbn [all_below]; intros Hp z Hz; [lia|].
  apply andb_true_iff in Hp. destruct Hp as [Hn Hr].
  destruct (Z.eq_dec z (Z.of_nat n)) as [->|Hne]; [exact Hn|].
  apply IH; [exact Hr|lia].
Qed.

(** Settles an equation on the integers below [n] by trying them all. *)
Ltac enumerate n :=
  let z := fresh "z" in
  let Hz := fresh "Hz" in
  intros z Hz; apply Z.eqb_eq;
  match goal with
  | |- ?b = true =>
      let p := eval pattern z in b in
      match p with
      | ?f _ => apply (all_below_spec n f); [vm_compute; reflexivity | lia]
      end
  end.

Lemma lor_80 : forall q, 0 <= q < 64 -> Z.lor 0x80 q = 0x80 + q.
Proof. enumerate 64%nat. Qed.

Lemma lor_C0 : forall q, 0 <= q < 32 -> Z.lor 0xC0 q = 0xC0 + q.
Proof. enumerate 32%nat. Qed.

Lemma lor_E0 : forall q, 0 <= q < 16 -> Z.lor 0xE0 q = 0xE0 + q.
Proof. enumerate 16%nat. Qed.

Lemma lor_F0 : forall q, 0 <= q < 8 -> Z.lor 0xF0 q = 0xF0 + q.
Proof. enumerate 8%nat. Qed.

Lemma shiftr_6 (c : Z) : Z.shiftr c 6 = c / 64.
Proof. now rewrite Z.shiftr_div_pow2. Qed.

Lemma shiftr_12 (c : Z) : Z.shiftr c 12 = c / 4096.
Proof. now rewrite Z.shiftr_div_pow2. Qed.

Lemma shiftr_18 (c : Z) : Z.shiftr c 18 = c / 262144.
Proof. now rewrite Z.shiftr_div_pow2. Qed.

Lemma land_maskx (c : Z) : Z.land c utf8.maskx = c mod 64.
Proof. change utf8.maskx with (Z.ones 6). now rewrite Z.land_ones. Qed.

Lemma len_nil {A : Type} : len (@nil A) = 0.
Proof. reflexivity. Qed.

Lemma len_cons {A : Type} (a : A) (l : list A) : len (a :: l) = len l + 1.
Proof. unfold len. cbn [List.length]. lia. Qed.

Lemma len_app {A : Type} (t e : list A) : len (t ++ e) = len t + len e.
Proof. unfold len. rewrite length_app. lia. Qed.

Lemma len_nonneg {A : Type} (l : list A) : 0 <= len l.
Proof. unfold len. lia. Qed.

Lemma at_index_app (t e : gostring) (k : Z) :
  0 <= k -> at_index (t ++ e) (len t + k) = at_index e k.
Proof.
  intros Hk. unfold at_index, len.
  replace (Z.to_nat (Z.of_nat (List.length t) + k))
    with (List.length t + Z.to_nat k)%nat by lia.
  apply app_nth2_plus.
Qed.

Lemma at_index_0 (a : byte) (l : gostring) : at_index (a :: l) 0 = a.
Proof. reflexivity. Qed.

Lemma at_index_1 (a b : byte) (l : gostring) : at_index (a :: b :: l) 1 = b.
Proof. reflexivity. Qed.

Lemma at_index_2 (a b c : byte) (l : gostring) :
  at_index (a :: b :: c :: l) 2 = c.
Proof. reflexivity. Qed.

Lemma at_index_3 (a b c d : byte) (l : gostring) :
  at_index (a :: b :: c :: d :: l) 3 = d.
Proof. reflexivity. Qed.

Lemma skipn_len_app {A : Type} (t e : list A) :
  skipn (Z.to_nat (len t)) (t ++ e) = e.
Proof.
  unfold len. rewrite Nat2Z.id, skipn_app, skipn_all, Nat.sub_diag.
  reflexivity.
Qed.

Lemma firstn_len_app {A : Type} (t e : list A) :
  firstn (Z.to_nat (len t)) (t ++ e) = t.
Proof.
  unfold len. rewrite Nat2Z.id, firstn_app, firstn_all, Nat.sub_diag.
  cbn. apply app_nil_r.
Qed.

(** ** Decoding the last rune *)

Ltac dlia := Z.div_mod_to_equations; lia.

Ltac split_ifs :=
  repeat match goal with
    | |- context [?a =? ?b] => destruct (Z.eqb_spec a b); try lia
    | |- context [?a <? ?b] => destruct (Z.ltb_spec a b); try lia
    | |- context [?a <=? ?b] => destruct (Z.leb_spec a b); try lia
    end.

Lemma RuneStart_val (b : byte) :
  utf8.RuneStart b = negb ((0x80 <=? byte_val b) && (byte_val b <? 0xC0)).
Proof. destruct b; reflexivity. Qed.

Lemma RuneStart_lead (v : Z) :
  0xC0 <= v < 256 -> utf8.RuneStart (to_byte v) = true.
Proof.
  intros Hv. rewrite RuneStart_val, byte_val_to_byte by lia.
  split_ifs; reflexivity.
Qed.

Lemma RuneStart_continuation (y : Z) :
  0 <= y < 64 -> utf8.RuneStart (to_byte (0x80 + y)) = false.
Proof.
  intros Hy. rewrite RuneStart_val, byte_val_to_byte by lia.
  split_ifs; reflexivity.
Qed.

Lemma scanBack_stops (s : gostring) (lim : Z) (k : nat) :
  forall (fuel : nat) (start : Z),
    (k < fuel)%nat ->
    lim <= start - Z.of_nat k ->
    utf8.RuneStart (at_index s (start - Z.of_nat k)) = true ->
    (forall j, 0 <= j < Z.of_nat k ->
               utf8.RuneStart (at_index s (start - j)) = false) ->
    utf8.scanBack fuel s start lim = start - Z.of_nat k.
Proof.
  induction k as [|k IH]; intros fuel start Hf Hlim Hstop Hcont;
    (destruct fuel as [|fuel]; [lia|]); cbn [utf8.scanBack].
  - destruct (Z.ltb_spec start lim); [lia|].
    replace (start - Z.of_nat 0) with start in Hstop by lia.
    rewrite Hstop. lia.
  - destruct (Z.ltb_spec start lim); [lia|].
    pose proof (Hcont 0 ltac:(lia)) as H0.
    replace (start - 0) with start in H0 by lia. rewrite H0.
    rewrite IH; try lia.
    + replace (start - 1 - Z.of_nat k) with (start - Z.of_nat (S k)) by lia.
      exact Hstop.
    + intros j Hj. replace (start - 1 - j) with (start - (j + 1)) by lia.
      apply Hcont. lia.
Qed.

(** The scan is over after [start - lim + 1] bytes at most, three in
    [DecodeLastRuneInString]: the fuel given there is never used up. *)
Lemma scanBack_fuel (s : gostring) (lim : Z) (fuel : nat) :
  forall (fuel' : nat) (start : Z),
    (fuel <= fuel')%nat ->
    start - lim + 1 < Z.of_nat fuel ->
    utf8.scanBack fuel' s start lim = utf8.scanBack fuel s start lim.
Proof.
  induction fuel as [|fuel IH]; intros fuel' start Hle Hfuel.
  - destruct fuel' as [|fuel']; cbn [utf8.scanBack]; [reflexivity|].
    destruct (Z.ltb_spec start lim); [reflexivity|lia].
  - destruct fuel' as [|fuel']; [lia|]. cbn [utf8.scanBack].
    destruct (Z.ltb_spec start lim); [reflexivity|].
    destruct (utf8.RuneStart (at_index s start)); [reflexivity|].
    apply IH; lia.
Qed.

Lemma scanBack_le (fuel : nat) (s : gostring) (lim : Z) :
  forall start, utf8.scanBack fuel s start lim <= start.
Proof.
  induction fuel as [|fuel IH]; intros start; cbn [utf8.scanBack]; [lia|].
  destruct (start <? lim); [lia|].
  destruct (utf8.RuneStart (at_index s start)); [lia|].
  specialize (IH (start - 1)). lia.
Qed.

Lemma DecodeRune_size (s : gostring) :
  s <> [] -> 1 <= snd (utf8.DecodeRuneInString s) <= 4.
Proof.
  destruct s as [|b0 s]; [congruence|]. intros _.
  unfold utf8.DecodeRuneInString.
  destruct (utf8.first (byte_val b0)) as [| |sz lo hi]; cbn [snd]; try lia.
  repeat match goal with
    | |- context [if ?b then _ else _] => destruct b; cbn [snd]; try lia
    end.
Qed.

Lemma DecodeLast_ascii (t : gostring) (b : byte) :
  byte_val b < 0x80 ->
  utf8.DecodeLastRuneInString (t ++ [b]) = (byte_val b, 1).
Proof.
  intros Hb. unfold utf8.DecodeLastRuneInString.
  rewrite len_app, len_cons, len_nil.
  pose proof (len_nonneg t).
  destruct (Z.eqb_spec (len t + (0 + 1)) 0); [lia|].
  replace (len t + (0 + 1) - 1) with (len t + 0) by lia.
  rewrite at_index_app by lia. rewrite at_index_0.
  change utf8.RuneSelf with 0x80.
  destruct (Z.ltb_spec (byte_val b) 0x80); [reflexivity|lia].
Qed.

(** The scan stops at the leading byte of a well-formed last character. *)
Lemma DecodeLast_multi (t e : gostring) :
  2 <= len e <= 4 ->
  utf8.RuneStart (at_index e 0) = true ->
  (forall k, 1 <= k < len e -> utf8.RuneStart (at_index e k) = false) ->
  snd (utf8.DecodeRuneInString e) = len e ->
  snd (utf8.DecodeLastRuneInString (t ++ e)) = len e.
Proof.
  intros Hlen Hstart Hcont Hdec. unfold utf8.DecodeLastRuneInString.
  rewrite len_app. pose proof (len_nonneg t) as Ht.
  destruct (Z.eqb_spec (len t + len e) 0); [lia|].
  replace (len t + len e - 1) with (len t + (len e - 1)) by lia.
  rewrite at_index_app by lia.
  pose proof (Hcont (len e - 1) ltac:(lia)) as Hlast.
  rewrite RuneStart_val in Hlast. apply negb_false_iff, andb_true_iff in Hlast.
  destruct Hlast as [Hlo _]. apply Z.leb_le in Hlo.
  change utf8.RuneSelf with 0x80.
  destruct (Z.ltb_spec (byte_val (at_index e (len e - 1))) 0x80); [lia|].
  change utf8.UTFMax with 4.
  set (lim := if len t + len e - 4 <? 0 then 0 else len t + len e - 4).
  assert (Hlim : lim <= len t).
  { unfold lim. destruct (Z.ltb_spec (len t + len e - 4) 0); lia. }
  rewrite (scanBack_stops _ lim (Z.to_nat (len e - 2))).
  - replace (len t + (len e - 1) - 1 - Z.of_nat (Z.to_nat (len e - 2)))
      with (len t) by lia.
    destruct (Z.ltb_spec (len t) 0); [lia|].
    rewrite skipn_len_app.
    destruct (utf8.DecodeRuneInString e) as [r size]. cbn [snd] in Hdec.
    subst size. rewrite Z.eqb_refl. reflexivity.
  - change (Z.to_nat 4) with 4%nat. lia.
  - lia.
  - replace (len t + (len e - 1) - 1 - Z.of_nat (Z.to_nat (len e - 2)))
      with (len t + 0) by lia.
    rewrite at_index_app by lia. exact Hstart.
  - intros j Hj.
    replace (len t + (len e - 1) - 1 - j) with (len t + (len e - 2 - j)) by lia.
    rewrite at_index_app by lia. apply Hcont. lia.
Qed.

(** Whatever the bytes, the size is at least 1 and at most the length. *)
Lemma DecodeLast_size (s : gostring) :
  s <> [] ->
  1 <= snd (utf8.DecodeLastRuneInString s) <= len s
  /\ snd (utf8.DecodeLastRuneInString s) <= 4.
Proof.
  intros Hs. unfold utf8.DecodeLastRuneInString.
  assert (Hlen : 1 <= len s).
  { destruct s; [congruence|]. rewrite len_cons.
    pose proof (len_nonneg s). lia. }
  destruct (Z.eqb_spec (len s) 0); [lia|].
  destruct (byte_val (at_index s (len s - 1)) <? utf8.RuneSelf);
    cbn [snd]; [lia|].
  change utf8.UTFMax with 4.
  set (lim := if len s - 4 <? 0 then 0 else len s - 4).
  pose proof (scanBack_le (Z.to_nat 4) s lim (len s - 1 - 1)) as Hle.
  set (start0 := utf8.scanBack (Z.to_nat 4) s (len s - 1 - 1) lim) in *.
  set (start := if start0 <? 0 then 0 else start0).
  assert (Hstart : 0 <= start < len s).
  { unfold start. destruct (Z.ltb_spec start0 0); lia. }
  assert (Hne : skipn (Z.to_nat start) s <> []).
  { intros E. apply (f_equal (@List.length byte)) in E.
    rewrite length_skipn in E. unfold len in Hstart. cbn in E. lia. }
  pose proof (DecodeRune_size _ Hne) as Hsz.
  destruct (utf8.DecodeRuneInString (skipn (Z.to_nat start) s)) as [r size].
  cbn [snd] in Hsz.
  destruct (Z.eqb_spec (start + size) (len s)); cbn [snd]; lia.
Qed.

(** ** Encoded runes *)

Ltac decode_bytes :=
  unfold utf8.DecodeRuneInString;
  rewrite ?at_index_1, ?at_index_2, ?at_index_3;
  rewrite ?byte_val_to_byte by lia;
  rewrite !len_cons, len_nil;
  unfold utf8.first, utf8.locb, utf8.hicb;
  split_ifs; cbn [orb snd]; reflexivity.

Lemma decode_two (x y : Z) :
  2 <= x < 32 -> 0 <= y < 64 ->
  snd (utf8.DecodeRuneInString [to_byte (0xC0 + x); to_byte (0x80 + y)]) = 2.
Proof. intros Hx Hy. decode_bytes. Qed.

Lemma decode_three (x y z : Z) :
  0 <= x < 16 -> 0 <= y < 64 -> 0 <= z < 64 ->
  (x = 0 -> 32 <= y) -> (x = 13 -> y < 32) ->
  snd (utf8.DecodeRuneInString
         [to_byte (0xE0 + x); to_byte (0x80 + y); to_byte (0x80 + z)]) = 3.
Proof. intros Hx Hy Hz H0 H13. decode_bytes. Qed.

Lemma decode_four (w x y z : Z) :
  0 <= w <= 4 -> 0 <= x < 64 -> 0 <= y < 64 -> 0 <= z < 64 ->
  (w = 0 -> 16 <= x) -> (w = 4 -> x < 16) ->
  snd (utf8.DecodeRuneInString
         [to_byte (0xF0 + w); to_byte (0x80 + x);
          to_byte (0x80 + y); to_byte (0x80 + z)]) = 4.
Proof. intros Hw Hx Hy Hz H0 H4. decode_bytes. Qed.

Lemma wellFormed_last (t e : gostring) :
  wellFormed e ->
  snd (utf8.DecodeLastRuneInString (t ++ e)) = len e /\ 1 <= len e <= 4.
Proof.
  intros [(b & -> & Hb)|(Hlen & Hstart & Hcont & Hdec)].
  - rewrite DecodeLast_ascii by assumption. cbn. lia.
  - split; [now apply DecodeLast_multi|lia].
Qed.

Ltac continuation_bytes :=
  let k := fresh "k" in
  let Hk := fresh "Hk" in
  intros k Hk; rewrite ?len_cons, ?len_nil in Hk;
  assert (k = 1 \/ k = 2 \/ k = 3) as [-> | [-> | ->]] by lia;
  rewrite ?at_index_1, ?at_index_2, ?at_index_3;
  solve [apply RuneStart_continuation; dlia | lia].

Lemma encode_wellFormed (c : Z) : wellFormed (utf8.encode c).
Proof.
  unfold utf8.encode, utf8.MaxRune, utf8.surrogateMin, utf8.surrogateMax.
  destruct (Z.leb_spec 0 c), (Z.leb_spec c 0x7F); cbn [andb].
  1: { left. eexists. split; [reflexivity|]. rewrite byte_val_to_byte; lia. }
  all: destruct (Z.leb_spec c 0x7FF); cbn [andb]; try lia.
  1: { right. rewrite shiftr_6, land_maskx, lor_C0, lor_80 by dlia.
       rewrite !len_cons, len_nil, at_index_0.
       split; [lia|]. split; [apply RuneStart_lead; dlia|].
       split; [continuation_bytes|]. apply decode_two; dlia. }
  all: destruct (Z.ltb_spec c 0), (Z.ltb_spec 0x10FFFF c),
         (Z.leb_spec 0xD800 c), (Z.leb_spec c 0xDFFF); cbn [andb orb];
       try lia.
  all: try (right; rewrite !len_cons, len_nil, at_index_0;
            split; [lia|]; split; [reflexivity|];
            split; [|reflexivity];
            let k := fresh "k" in
            let Hk := fresh "Hk" in
            intros k Hk; assert (k = 1 \/ k = 2) as [->| ->] by lia;
            reflexivity).
  all: destruct (Z.leb_spec c 0xFFFF).
  all: try (right; rewrite shiftr_6, shiftr_12, !land_maskx, lor_E0, !lor_80
              by dlia;
            rewrite !len_cons, len_nil, at_index_0;
            split; [lia|]; split; [apply RuneStart_lead; dlia|];
            split; [continuation_bytes|]; apply decode_three; dlia).
  all: right; rewrite shiftr_6, shiftr_12, shiftr_18, !land_maskx, lor_F0,
         !lor_80 by dlia;
       rewrite !len_cons, len_nil, at_index_0;
       split; [lia|]; split; [apply RuneStart_lead; dlia|];
       split; [continuation_bytes|]; apply decode_four; dlia.
Qed.

Lemma DecodeLast_encode (t : gostring) (c : Z) :
  snd (utf8.DecodeLastRuneInString (t ++ utf8.encode c)) = len (utf8.encode c)
  /\ 1 <= len (utf8.encode c) <= 4.
Proof. apply wellFormed_last, encode_wellFormed. Qed.

(** ** The filter *)

Section FilterFacts.

Context {P : Type} `{listingProvider P}.
Context `{package}.

Lemma changeFilter_fields (t : gostring) (l : listing P) :
  changeFilter t l
  = {| provider := fst (Filter (provider l) t);
       selected := snd (Filter (provider l) t);
       filter := t;
       pagesize := pagesize l |}.
Proof. unfold changeFilter. now destruct (Filter (provider l) t). Qed.

Lemma backspace_by_size (l : listing P) (size : Z) :
  len (filter l) <= max_int ->
  snd (utf8.DecodeLastRuneInString (filter l)) = size ->
  1 <= size <= len (filter l) ->
  backspace l
  = Ok (true,
        changeFilter
          (firstn (Z.to_nat (len (filter l) - size)) (filter l)) l).
Proof.
  intros Hint Hsize Hrange. unfold backspace.
  destruct (utf8.DecodeLastRuneInString (filter l)) as [r sz].
  cbn [snd] in Hsize. subst sz.
  destruct (Z.ltb_spec 0 size); [|lia].
  unfold slice_to. ints.
  destruct (Z.leb_spec 0 (len (filter l) - size)); [|lia].
  destruct (Z.leb_spec (len (filter l) - size) (len (filter l))); [|lia].
  reflexivity.
Qed.

Lemma backspace_encoded (l : listing P) (t : gostring) (c : Z) :
  len (filter l) <= max_int ->
  filter l = t ++ utf8.encode c ->
  backspace l = Ok (true, changeFilter t l).
Proof.
  intros Hint E.
  destruct (DecodeLast_encode t c) as [Hsz Hlen]. rewrite <- E in Hsz.
  rewrite (backspace_by_size l (len (utf8.encode c))); try assumption.
  - rewrite E, len_app.
    replace (len t + len (utf8.encode c) - len (utf8.encode c))
      with (len t) by lia.
    rewrite firstn_len_app. reflexivity.
  - rewrite E, len_app. pose proof (len_nonneg t). lia.
Qed.

(** C7: on an empty filter text backspace returns false and leaves the
    listing as it is; on a non-empty one it returns true, cuts between
    one and four bytes off the end, runs the provider's Filter on the
    shorter text and takes the selection it returns; when the text ends
    in an encoded character, the bytes cut are exactly those of that
    character. *)
Theorem backspace_last_character (l : listing P) :
  len (filter l) <= max_int ->
  (filter l = [] -> backspace l = Ok (false, l))
  /\ (filter l <> [] ->
      exists size shorter,
        1 <= size <= 4
        /\ len shorter = len (filter l) - size
        /\ shorter = firstn (Z.to_nat (len shorter)) (filter l)
        /\ backspace l
           = Ok (true,
                 {| provider := fst (Filter (provider l) shorter);
                    selected := snd (Filter (provider l) shorter);
                    filter := shorter;
                    pagesize := pagesize l |}))
  /\ (forall t c,
        filter l = t ++ utf8.encode c ->
        backspace l
        = Ok (true,
              {| provider := fst (Filter (provider l) t);
                 selected := snd (Filter (provider l) t);
                 filter := t;
                 pagesize := pagesize l |})).
Proof.
  intros Hint. split; [|split].
  - intros E. unfold backspace. rewrite E. reflexivity.
  - intros Hne. destruct (DecodeLast_size _ Hne) as [Hsz H4].
    set (size := snd (utf8.DecodeLastRuneInString (filter l))) in *.
    exists size, (firstn (Z.to_nat (len (filter l) - size)) (filter l)).
    assert (Hlen : len (firstn (Z.to_nat (len (filter l) - size)) (filter l))
                   = len (filter l) - size).
    { unfold len in *. rewrite length_firstn. lia. }
    split; [lia|]. split; [exact Hlen|]. split.
    + rewrite Hlen. reflexivity.
    + rewrite <- changeFilter_fields.
      now apply backspace_by_size.
  - intros t c E. rewrite <- changeFilter_fields.
    now apply (backspace_encoded l t c).
Qed.

(** C8: a key that counts as a character appends its encoding to the
    filter text; a backspace right after it gives the filter text back
    and selects what the provider's Filter returns for that text, the
    same index as changing the filter to it directly when the provider
    is deterministic. *)
Theorem append_then_backspace (l : listing P) (k : Key) :
  likeChar k = true ->
  len (filter l) + 4 <= max_int ->
  let l1 := snd (handleFilterKey k l) in
  fst (handleFilterKey k l) = true
  /\ filter l1 = filter l ++ utf8.encode (Rune k)
  /\ exists l2,
      backspace l1 = Ok (true, l2)
      /\ filter l2 = filter l
      /\ selected l2 = snd (Filter (provider l1) (filter l))
      /\ (deterministic ->
          selected l2 = selected (changeFilter (filter l) l)).
Proof.
  intros Hk Hint l1. subst l1. unfold handleFilterKey. rewrite Hk.
  cbn [fst snd].
  set (l1 := changeFilter (filter l ++ utf8.encode (Rune k)) l).
  assert (Hf : filter l1 = filter l ++ utf8.encode (Rune k)).
  { unfold l1. rewrite changeFilter_fields. reflexivity. }
  split; [reflexivity|]. split; [exact Hf|].
  destruct (DecodeLast_encode (filter l) (Rune k)) as [_ Hlen].
  assert (Hint1 : len (filter l1) <= max_int).
  { rewrite Hf, len_app. lia. }
  exists (changeFilter (filter l) l1).
  split; [now apply (backspace_encoded l1 (filter l) (Rune k))|].
  rewrite !changeFilter_fields. cbn [filter selected].
  split; [reflexivity|]. split; [reflexivity|].
  intros Hdet. apply Hdet.
Qed.

End FilterFacts.

(** ** Lines *)

Lemma byte_eqb_spec (a b : byte) : reflect (a = b) (Byte.eqb a b).
Proof.
  destruct (Byte.eqb a b) eqn:E; constructor.
  - now apply Byte.byte_dec_bl.
  - intros ->. rewrite Byte.byte_dec_lb in E; congruence.
Qed.

Lemma Count_nonneg (s : gostring) (sep : byte) : 0 <= strings.Count s sep.
Proof.
  induction s as [|c s IH]; cbn [strings.Count]; [lia|].
  destruct (Byte.eqb c sep); lia.
Qed.

Lemma Split_nonempty (s : gostring) (sep : byte) : strings.Split s sep <> [].
Proof.
  destruct s as [|c s]; cbn [strings.Split]; [discriminate|].
  destruct (Byte.eqb c sep); [discriminate|].
  destruct (strings.Split s sep); discriminate.
Qed.

Lemma Split_length (s : gostring) (sep : byte) :
  len (strings.Split s sep) = strings.Count s sep + 1.
Proof.
  induction s as [|c s IH]; cbn [strings.Split strings.Count]; [reflexivity|].
  destruct (Byte.eqb c sep).
  - rewrite len_cons, IH. lia.
  - pose proof (Split_nonempty s sep).
    destruct (strings.Split s sep) as [|l ls]; [congruence|].
    rewrite len_cons in *. lia.
Qed.

Lemma Split_no_sep (s : gostring) (sep : byte) :
  Forall (fun l => ~ In sep l) (strings.Split s sep).
Proof.
  induction s as [|c s IH]; cbn [strings.Split].
  - constructor; [intros []|constructor].
  - destruct (byte_eqb_spec c sep) as [->|Hne].
    + constructor; [intros []|exact IH].
    + destruct (strings.Split s sep) as [|l ls].
      * constructor; [|constructor]. intros [E|[]]. congruence.
      * inversion IH as [|? ? Hl Hls]; subst.
        constructor; [|exact Hls]. intros [E|Hin]; [congruence|auto].
Qed.

Lemma Split_line (l : gostring) (sep : byte) :
  ~ In sep l -> strings.Split l sep = [l].
Proof.
  induction l as [|c l IH]; intros Hl; cbn [strings.Split]; [reflexivity|].
  destruct (byte_eqb_spec c sep) as [->|Hne].
  - exfalso. apply Hl. now left.
  - rewrite IH; [reflexivity|]. intros Hin. apply Hl. now right.
Qed.

Lemma Split_line_sep (l rest : gostring) (sep : byte) :
  ~ In sep l ->
  strings.Split (l ++ sep :: rest) sep = l :: strings.Split rest sep.
Proof.
  induction l as [|c l IH]; intros Hl; cbn [strings.Split app].
  - destruct (byte_eqb_spec sep sep); [reflexivity|congruence].
  - destruct (byte_eqb_spec c sep) as [->|Hne].
    + exfalso. apply Hl. now left.
    + rewrite IH; [reflexivity|]. intros Hin. apply Hl. now right.
Qed.

(** Splitting what was joined gives the lines back. *)
Lemma Split_Join (ls : list gostring) (sep : byte) :
  ls <> [] -> Forall (fun l => ~ In sep l) ls ->
  strings.Split (strings.Join ls sep) sep = ls.
Proof.
  induction ls as [|l ls IH]; intros Hne Hall; [congruence|].
  inversion Hall as [|? ? Hl Hls]; subst.
  destruct ls as [|l' ls].
  - cbn [strings.Join]. now apply Split_line.
  - change (strings.Join (l :: l' :: ls) sep)
      with (l ++ sep :: strings.Join (l' :: ls) sep).
    rewrite Split_line_sep by assumption.
    rewrite IH; [reflexivity|discriminate|assumption].
Qed.

Lemma Join_Split (s : gostring) (sep : byte) :
  strings.Join (strings.Split s sep) sep = s.
Proof.
  induction s as [|c s IH]; cbn [strings.Split]; [reflexivity|].
  pose proof (Split_nonempty s sep) as Hne.
  destruct (byte_eqb_spec c sep) as [->|Hc].
  - destruct (strings.Split s sep) as [|l ls]; [congruence|].
    change (strings.Join ([] :: l :: ls) sep)
      with ([] ++ sep :: strings.Join (l :: ls) sep).
    rewrite IH. reflexivity.
  - destruct (strings.Split s sep) as [|l ls]; [congruence|].
    destruct ls as [|l' ls]; cbn [strings.Join app] in *; now rewrite <- IH.
Qed.

Lemma Forall_firstn {A : Type} (Q : A -> Prop) (k : nat) (l : list A) :
  Forall Q l -> Forall Q (firstn k l).
Proof.
  intros Hl. rewrite <- (firstn_skipn k l) in Hl.
  now apply Forall_app in Hl.
Qed.

Lemma Forall_skipn {A : Type} (Q : A -> Prop) (k : nat) (l : list A) :
  Forall Q l -> Forall Q (skipn k l).
Proof.
  intros Hl. rewrite <- (firstn_skipn k l) in Hl.
  now apply Forall_app in Hl.
Qed.

(** The line count of some lines of an entry, joined again. *)
Lemma lineCount_kept (kept : list gostring) (sty : gostring) :
  kept <> [] -> Forall (fun l => ~ In nl l) kept ->
  lineCount {| text := strings.Join kept nl; style := sty |} = len kept
  /\ strings.Split (strings.Join kept nl) nl = kept.
Proof.
  intros Hne Hall. unfold lineCount. cbn [text].
  rewrite <- Split_length, Split_Join by assumption. split; reflexivity.
Qed.

(** ** The window *)

Section WindowFacts.

Context {P : Type} `{listingProvider P}.
Variables (p : P) (width maxHeight : Z).

Lemma lineCount_pos (s : styled) : 1 <= lineCount s.
Proof. unfold lineCount. pose proof (Count_nonneg (text s) nl). lia. Qed.

Lemma totalLines_cons (s : styled) (es : list styled) :
  totalLines (s :: es) = lineCount s + totalLines es.
Proof. reflexivity. Qed.

Lemma totalLines_app (es fs : list styled) :
  totalLines (es ++ fs) = totalLines es + totalLines fs.
Proof.
  induction es as [|s es IH]; [reflexivity|].
  cbn [app]. rewrite !totalLines_cons, IH. lia.
Qed.

Lemma totalLines_ge (es : list styled) : len es <= totalLines es.
Proof.
  induction es as [|s es IH]; [reflexivity|].
  rewrite len_cons, totalLines_cons.
  pose proof (lineCount_pos s). lia.
Qed.

Lemma getEntry_fits (i : Z) :
  0 <= maxHeight ->
  maxHeight + entryLines p width i <= max_int ->
  getEntry p width i = (Show p i width, entryLines p width i).
Proof.
  intros Hm Hfit. unfold getEntry, entryLines, lineCount in *.
  pose proof (Count_nonneg (text (Show p i width)) nl).
  ints. reflexivity.
Qed.

Lemma lineCount_cutTo (budget : Z) (fromLow : bool) (s : styled) :
  1 <= budget ->
  lineCount (cutTo budget fromLow s) = Z.min budget (lineCount s).
Proof.
  intros Hb. unfold cutTo.
  destruct (Z.ltb_spec budget (lineCount s)); [|lia].
  pose proof (Split_length (text s) nl) as Hlen. fold (lineCount s) in Hlen.
  pose proof (Split_no_sep (text s) nl) as Hall.
  destruct fromLow.
  - destruct (lineCount_kept
                (skipn (Z.to_nat (lineCount s - budget))
                   (strings.Split (text s) nl)) (style s)) as [-> _].
    + intros E. apply (f_equal (@List.length _)) in E.
      rewrite length_skipn in E. unfold len in Hlen. cbn in E. lia.
    + now apply Forall_skipn.
    + unfold len in *. rewrite length_skipn. lia.
  - destruct (lineCount_kept
                (firstn (Z.to_nat budget)
                   (strings.Split (text s) nl)) (style s)) as [-> _].
    + intros E. apply (f_equal (@List.length _)) in E.
      rewrite length_firstn in E. unfold len in Hlen. cbn in E. lia.
    + now apply Forall_firstn.
    + unfold len in *. rewrite length_firstn. lia.
Qed.

(** A turn of the loop, when the line counts stay within [int]. *)
Lemma extend_wrapped (n : Z) (st : window) :
  let i := if extendsLow n st then isub (low st) 1 else high st in
  0 <= height st < maxHeight ->
  maxHeight + entryLines p width i <= max_int ->
  extend p n width maxHeight st
  = Ok (let s := cutTo (maxHeight - height st) (extendsLow n st)
                   (Show p i width) in
        {| low := if extendsLow n st then isub (low st) 1 else low st;
           high := if extendsLow n st then high st else iadd (high st) 1;
           height := Z.min maxHeight (height st + entryLines p width i);
           entries := if extendsLow n st then s :: entries st
                      else entries st ++ [s];
           extendLow := negb (extendLow st) |}).
Proof.
  intros i Hh Hfit. unfold extend. fold (extendsLow n st).
  subst i. unfold cutTo.
  set (lo := isub (low st) 1) in *. set (hi := iadd (high st) 1).
  pose proof (Split_length
                (text (Show p (if extendsLow n st then lo else high st)
                         width)) nl) as Hlen.
  revert Hfit Hlen. destruct (extendsLow n st); intros Hfit Hlen.
  - rewrite getEntry_fits by lia.
    set (s := Show p lo width) in *.
    fold (lineCount s) in Hlen. unfold entryLines in *. fold s in Hfit |- *.
    pose proof (lineCount_pos s).
    ints.
    destruct (Z.ltb_spec maxHeight (height st + lineCount s));
      destruct (Z.ltb_spec (maxHeight - height st) (lineCount s)); try lia.
    + ints. unfold slice_from. rewrite Hlen.
      destruct (Z.leb_spec 0 (height st + lineCount s - maxHeight)); [|lia].
      destruct (Z.leb_spec (height st + lineCount s - maxHeight)
                  (lineCount s)); [|lia].
      cbn [andb bind].
      replace (lineCount s - (maxHeight - height st))
        with (height st + lineCount s - maxHeight) by lia.
      rewrite Z.min_l by lia. reflexivity.
    + cbn [bind]. rewrite Z.min_r by lia. reflexivity.
  - rewrite getEntry_fits by lia.
    set (s := Show p (high st) width) in *.
    fold (lineCount s) in Hlen. unfold entryLines in *. fold s in Hfit |- *.
    pose proof (lineCount_pos s).
    ints.
    destruct (Z.ltb_spec maxHeight (height st + lineCount s));
      destruct (Z.ltb_spec (maxHeight - height st) (lineCount s)); try lia.
    + ints. rewrite Hlen. ints. unfold slice_to. rewrite Hlen.
      destruct (Z.leb_spec 0
                  (lineCount s - (height st + lineCount s - maxHeight)));
        [|lia].
      destruct (Z.leb_spec
                  (lineCount s - (height st + lineCount s - maxHeight))
                  (lineCount s)); [|lia].
      cbn [andb bind].
      replace (lineCount s - (height st + lineCount s - maxHeight))
        with (maxHeight - height st) by lia.
      rewrite Z.min_l by lia. reflexivity.
    + cbn [bind]. rewrite Z.min_r by lia. reflexivity.
Qed.

(** A turn of the loop, when the indices stay within [int] too. *)
Lemma extend_step (n : Z) (st : window) :
  let i := if extendsLow n st then low st - 1 else high st in
  0 <= height st < maxHeight ->
  min_int < low st <= max_int -> min_int <= high st < max_int ->
  maxHeight + entryLines p width i <= max_int ->
  extend p n width maxHeight st
  = Ok (let s := cutTo (maxHeight - height st) (extendsLow n st)
                   (Show p i width) in
        {| low := if extendsLow n st then low st - 1 else low st;
           high := if extendsLow n st then high st else high st + 1;
           height := Z.min maxHeight (height st + entryLines p width i);
           entries := if extendsLow n st then s :: entries st
                      else entries st ++ [s];
           extendLow := negb (extendLow st) |}).
Proof.
  intros i Hh Hlow Hhigh Hfit. subst i.
  rewrite extend_wrapped; ints; [reflexivity|assumption|assumption].
Qed.

Variable n : Z.
Variable sd : Z.

Hypothesis Hn : n = Len p.
Hypothesis Hsd : 0 <= sd < n.
Hypothesis Hfit : fitsInt p width maxHeight.

Lemma extend_index (st : window) :
  windowInv n maxHeight sd st -> windowCond n maxHeight st = true ->
  let i := if extendsLow n st then low st - 1 else high st in
  0 <= i < n
  /\ (extendsLow n st = true -> 0 < low st /\ sd < high st)
  /\ (extendsLow n st = false -> high st < n).
Proof.
  intros (Hl0 & Hls & Hhn & Hseed & Hh & Hlen & Htot) Hc i. subst i.
  unfold windowCond in Hc. apply andb_true_iff in Hc. destruct Hc as [Hc1 Hc2].
  apply Z.ltb_lt in Hc1. apply negb_true_iff in Hc2.
  unfold extendsLow.
  destruct (Z.eqb_spec (high st) n) as [E|E].
  - rewrite orb_true_r. rewrite andb_true_r in Hc2.
    apply Z.eqb_neq in Hc2. repeat split; try lia; congruence.
  - rewrite orb_false_r.
    destruct (extendLow st) eqn:El; cbn [andb].
    + destruct (Z.ltb_spec 0 (low st)).
      * repeat split; try lia; congruence.
      * repeat split; try lia; congruence.
    + repeat split; try lia; congruence.
Qed.

Lemma extend_inv (st : window) :
  windowInv n maxHeight sd st -> windowCond n maxHeight st = true ->
  exists st',
    extend p n width maxHeight st = Ok st'
    /\ windowInv n maxHeight sd st' /\ sd < high st' /\ height st < height st'.
Proof.
  intros Hinv Hc.
  destruct (extend_index st Hinv Hc) as (Hi & Hlo & Hhi).
  destruct Hinv as (Hl0 & Hls & Hhn & Hseed & Hh & Hlen & Htot).
  assert (Hc1 : height st < maxHeight).
  { unfold windowCond in Hc. apply andb_true_iff in Hc.
    destruct Hc as [Hc _]. now apply Z.ltb_lt in Hc. }
  destruct Hfit as [Hfit1 Hfit2]. rewrite <- Hn in *.
  eexists. split.
  - apply extend_step; try int_lia. apply Hfit2. exact Hi.
  - cbv zeta. unfold windowInv. cbn [low high height entries extendLow].
    set (i := if extendsLow n st then low st - 1 else high st) in *.
    pose proof (lineCount_pos (Show p i width)) as Hpos.
    fold (entryLines p width i) in Hpos.
    pose proof (lineCount_cutTo (maxHeight - height st) (extendsLow n st)
                  (Show p i width) ltac:(lia)) as Hcut.
    fold (entryLines p width i) in Hcut.
    destruct (extendsLow n st).
    + specialize (Hlo eq_refl).
      rewrite len_cons, totalLines_cons, Hcut. repeat split; lia.
    + specialize (Hhi eq_refl).
      rewrite len_app, totalLines_app, len_cons, totalLines_cons.
      change (len (@nil styled)) with 0.
      cbn [totalLines fold_right]. rewrite Hcut.
      repeat split; lia.
Qed.

Lemma collect_inv (Q : window -> Prop) :
  (forall st st',
      windowInv n maxHeight sd st -> Q st -> windowCond n maxHeight st = true ->
      extend p n width maxHeight st = Ok st' -> Q st') ->
  forall (fuel : nat) (st : window),
    windowInv n maxHeight sd st -> Q st ->
    maxHeight - height st <= Z.of_nat fuel ->
    exists st',
      collect fuel p n width maxHeight st = Ok st'
      /\ windowInv n maxHeight sd st' /\ Q st'
      /\ windowCond n maxHeight st' = false.
Proof.
  intros HQ. induction fuel as [|fuel IH]; intros st Hinv Hq Hfuel;
    cbn [collect]; destruct (windowCond n maxHeight st) eqn:Hc.
  - exfalso. unfold windowCond in Hc. apply andb_true_iff in Hc.
    destruct Hc as [Hc _]. apply Z.ltb_lt in Hc. lia.
  - exists st. auto.
  - destruct (extend_inv st Hinv Hc) as (st1 & He & Hinv1 & _ & Hgrow).
    rewrite He. cbn [bind].
    apply IH; [exact Hinv1|now apply (HQ st st1)|lia].
  - exists st. auto.
Qed.


Lemma linesFrom_app (a b : nat) :
  forall i, linesFrom p width (a + b) i
            = linesFrom p width a i + linesFrom p width b (i + Z.of_nat a).
Proof.
  induction a as [|a IH]; intros i; cbn [linesFrom Nat.add].
  - replace (i + Z.of_nat 0) with i by lia. lia.
  - rewrite IH. replace (i + 1 + Z.of_nat a) with (i + Z.of_nat (S a)) by lia.
    lia.
Qed.

Lemma linesFrom_ge (k : nat) :
  forall i, Z.of_nat k <= linesFrom p width k i.
Proof.
  induction k as [|k IH]; intros i; cbn [linesFrom]; [lia|].
  specialize (IH (i + 1)).
  pose proof (lineCount_pos (Show p i width)) as Hpos.
  fold (entryLines p width i) in Hpos. lia.
Qed.

Lemma linesFrom_split (lo hi : Z) :
  0 <= lo <= hi -> hi <= n ->
  linesFrom p width (Z.to_nat n) 0
  = linesFrom p width (Z.to_nat lo) 0
    + linesFrom p width (Z.to_nat (hi - lo)) lo
    + linesFrom p width (Z.to_nat (n - hi)) hi.
Proof.
  intros Hlo Hhi.
  replace (Z.to_nat n)
    with (Z.to_nat lo + (Z.to_nat (hi - lo) + Z.to_nat (n - hi)))%nat by lia.
  rewrite !linesFrom_app.
  replace (0 + Z.of_nat (Z.to_nat lo)) with lo by lia.
  replace (lo + Z.of_nat (Z.to_nat (hi - lo))) with hi by lia.
  lia.
Qed.

Lemma extend_exact (st st' : window) :
  linesFrom p width (Z.to_nat n) 0 <= maxHeight ->
  windowInv n maxHeight sd st -> windowExact p width st ->
  windowCond n maxHeight st = true ->
  extend p n width maxHeight st = Ok st' -> windowExact p width st'.
Proof.
  intros Htotal Hinv Hex Hc He.
  destruct (extend_index st Hinv Hc) as (Hi & Hlo & Hhi).
  destruct Hinv as (Hl0 & Hls & Hhn & Hseed & Hh & Hlen & Htot).
  destruct Hfit as [Hfit1 Hfit2]. rewrite <- Hn in *.
  assert (Hc1 : height st < maxHeight).
  { unfold windowCond in Hc. apply andb_true_iff in Hc.
    destruct Hc as [Hc _]. now apply Z.ltb_lt in Hc. }
  rewrite extend_step in He; try int_lia; [|apply Hfit2; exact Hi].
  injection He as <-. unfold windowExact in *.
  cbn [low high height]. revert Hi. 
  destruct (extendsLow n st); intros Hi.
  - specialize (Hlo eq_refl).
    replace (Z.to_nat (high st - (low st - 1)))
      with (S (Z.to_nat (high st - low st))) by lia.
    cbn [linesFrom]. replace (low st - 1 + 1) with (low st) by lia.
    rewrite <- Hex.
    pose proof (linesFrom_split (low st - 1) (high st)
                  ltac:(lia) ltac:(lia)) as Hs.
    replace (Z.to_nat (high st - (low st - 1)))
      with (S (Z.to_nat (high st - low st))) in Hs by lia.
    cbn [linesFrom] in Hs. replace (low st - 1 + 1) with (low st) in Hs by lia.
    rewrite <- Hex in Hs.
    pose proof (linesFrom_ge (Z.to_nat (low st - 1)) 0).
    pose proof (linesFrom_ge (Z.to_nat (n - high st)) (high st)).
    lia.
  - specialize (Hhi eq_refl).
    replace (Z.to_nat (high st + 1 - low st))
      with (Z.to_nat (high st - low st) + 1)%nat by lia.
    rewrite linesFrom_app. cbn [linesFrom].
    replace (low st + Z.of_nat (Z.to_nat (high st - low st)))
      with (high st) by lia.
    rewrite <- Hex.
    pose proof (linesFrom_split (low st) (high st + 1)
                  ltac:(lia) ltac:(lia)) as Hs.
    replace (Z.to_nat (high st + 1 - low st))
      with (Z.to_nat (high st - low st) + 1)%nat in Hs by lia.
    rewrite linesFrom_app in Hs. cbn [linesFrom] in Hs.
    replace (low st + Z.of_nat (Z.to_nat (high st - low st)))
      with (high st) in Hs by lia.
    rewrite <- Hex in Hs.
    pose proof (linesFrom_ge (Z.to_nat (low st)) 0).
    pose proof (linesFrom_ge (Z.to_nat (n - (high st + 1))) (high st + 1)).
    lia.
Qed.

Lemma exact_full (st : window) :
  linesFrom p width (Z.to_nat n) 0 <= maxHeight ->
  windowInv n maxHeight sd st -> windowExact p width st ->
  windowCond n maxHeight st = false ->
  low st = 0 /\ high st = n.
Proof.
  intros Htotal (Hl0 & Hls & Hhn & Hseed & Hh & Hlen & Htot) Hex Hc.
  unfold windowCond in Hc. apply andb_false_iff in Hc.
  destruct Hc as [Hc|Hc].
  - apply Z.ltb_ge in Hc. unfold windowExact in Hex.
    pose proof (linesFrom_split (low st) (high st) ltac:(lia) ltac:(lia)) as Hs.
    pose proof (linesFrom_ge (Z.to_nat (low st)) 0).
    pose proof (linesFrom_ge (Z.to_nat (n - high st)) (high st)).
    lia.
  - apply negb_false_iff, andb_true_iff in Hc. destruct Hc as [H1 H2].
    apply Z.eqb_eq in H1, H2. auto.
Qed.

End WindowFacts.

(** ** Rendering *)

Section ListFacts.

Context {P : Type} `{listingProvider P}.
Context {buffer : Type} `{bufferOps buffer}.
Context `{package}.

Lemma writeEntries_ok (k : nat) :
  forall (q : list styled) (i lo sel : Z) (b : buffer),
    List.length q = k ->
    exists b', writeEntries k i lo sel q b = Ok b'.
Proof.
  induction k as [|k IH]; intros q i lo sel b Hq; cbn [writeEntries].
  - now exists b.
  - destruct q as [|s q]; [discriminate|]. apply IH. now injection Hq.
Qed.

Lemma List_inv (width maxHeight : Z) (l : listing P) (r : rendered) :
  Len (provider l) <> 0 ->
  List width maxHeight l = Ok r ->
  exists st body,
    collect (Z.to_nat maxHeight) (provider l) (Len (provider l)) width
      maxHeight (windowStart l) = Ok st
    /\ writeEntries (Z.to_nat (high st - low st)) (low st) (low st)
         (selected l) (entries st) (newBuffer width) = Ok body
    /\ r = listed width l st body.
Proof.
  intros Hn HL. unfold List in HL.
  destruct (Z.eqb_spec (Len (provider l)) 0); [contradiction|].
  destruct (collect _ _ _ _ _ _) as [st| |]; cbn [bind] in HL;
    try discriminate.
  exists st.
  destruct ((0 <? low st) || (high st <? isub (Len (provider l)) 1)) eqn:Hbar;
    cbn [selected set_pagesize] in HL;
    destruct (writeEntries _ _ _ _ _ _) as [body| |]; cbn [bind] in HL;
    try discriminate;
    exists body; (split; [reflexivity|]); (split; [reflexivity|]);
    injection HL as <-; unfold listed; rewrite Hbar; reflexivity.
Qed.

Lemma List_collected (width maxHeight : Z) (l : listing P) (st : window) :
  Len (provider l) <> 0 ->
  collect (Z.to_nat maxHeight) (provider l) (Len (provider l)) width
    maxHeight (windowStart l) = Ok st ->
  len (entries st) = high st - low st ->
  exists body,
    writeEntries (Z.to_nat (high st - low st)) (low st) (low st)
      (selected l) (entries st) (newBuffer width) = Ok body
    /\ List width maxHeight l = Ok (listed width l st body).
Proof.
  intros Hn Hc Hlen.
  destruct (writeEntries_ok (Z.to_nat (high st - low st)) (entries st)
              (low st) (low st) (selected l) (newBuffer width))
    as [body Hbody].
  { unfold len in Hlen. lia. }
  exists body. split; [exact Hbody|].
  unfold List. destruct (Z.eqb_spec (Len (provider l)) 0); [contradiction|].
  rewrite Hc. cbn [bind]. unfold listed.
  destruct ((0 <? low st) || (high st <? isub (Len (provider l)) 1));
    cbn [selected set_pagesize]; rewrite Hbody; reflexivity.
Qed.

Lemma windowStart_inv (maxHeight : Z) (l : listing P) :
  0 <= seed l -> 0 <= maxHeight ->
  seed l <= Len (provider l) ->
  windowInv (Len (provider l)) maxHeight (seed l) (windowStart l).
Proof.
  intros Hs Hm Hn. unfold windowInv, windowStart. fold (seed l).
  cbn [low high height entries extendLow].
  change (len (@nil styled)) with 0. cbn [totalLines fold_right].
  repeat split; lia.
Qed.

Lemma windowStart_exact (width : Z) (l : listing P) :
  windowExact (provider l) width (windowStart l).
Proof.
  unfold windowExact, windowStart. cbn [low high height].
  rewrite Z.sub_diag. reflexivity.
Qed.

(** The loop from its start, with a seed among the entries and at
    least one line to fill. *)
Lemma collect_from_start (width maxHeight : Z) (l : listing P) :
  0 <= seed l < Len (provider l) -> 1 <= maxHeight ->
  fitsInt (provider l) width maxHeight ->
  exists st,
    collect (Z.to_nat maxHeight) (provider l) (Len (provider l)) width
      maxHeight (windowStart l) = Ok st
    /\ windowInv (Len (provider l)) maxHeight (seed l) st
    /\ seed l < high st
    /\ windowCond (Len (provider l)) maxHeight st = false
    /\ (linesFrom (provider l) width (Z.to_nat (Len (provider l))) 0
        <= maxHeight -> low st = 0 /\ high st = Len (provider l)).
Proof.
  intros Hs Hm Hfit.
  set (p := provider l). set (n := Len p).
  assert (Hinv0 : windowInv n maxHeight (seed l) (windowStart l)).
  { apply windowStart_inv; subst n p; lia. }
  assert (Hc0 : windowCond n maxHeight (windowStart l) = true).
  { unfold windowCond, windowStart. fold (seed l).
    cbn [low high height].
    destruct (Z.ltb_spec 0 maxHeight); [|lia].
    destruct (Z.eqb_spec (seed l) n); [subst n p; lia|].
    now rewrite andb_false_r. }
  destruct (extend_inv p width maxHeight n (seed l) eq_refl Hs Hfit
              _ Hinv0 Hc0) as (st1 & He1 & Hinv1 & Hhigh1 & Hgrow1).
  destruct (Z.to_nat maxHeight) as [|fuel] eqn:Efuel; [lia|].
  cbn [collect]. rewrite Hc0, He1. cbn [bind].
  set (Q := fun st : window =>
              seed l < high st
              /\ (linesFrom p width (Z.to_nat n) 0 <= maxHeight ->
                  windowExact p width st)).
  destruct (collect_inv p width maxHeight n (seed l) eq_refl Hs Hfit Q)
    with (fuel := fuel) (st := st1) as (st & Hc & Hinv & [Hq1 Hq2] & Hend).
  - intros st0 st0' Hi0 [Hq01 Hq02] Hcond He. split.
    + destruct (extend_inv p width maxHeight n (seed l) eq_refl Hs Hfit
                  _ Hi0 Hcond) as (st2 & He2 & _ & Hh2 & _).
      rewrite He in He2. injection He2 as ->. exact Hh2.
    + intros Htot.
      apply (extend_exact p width maxHeight n (seed l) eq_refl Hs Hfit
               st0 st0' Htot Hi0 (Hq02 Htot) Hcond He).
  - exact Hinv1.
  - split; [exact Hhigh1|]. intros Htot.
    apply (extend_exact p width maxHeight n (seed l) eq_refl Hs Hfit
             _ st1 Htot Hinv0 (windowStart_exact width l) Hc0 He1).
  - cbn [windowStart height] in Hgrow1. lia.
  - exists st. split; [exact Hc|]. split; [exact Hinv|].
    split; [exact Hq1|]. split; [exact Hend|]. intros Htot.
    exact (exact_full p width maxHeight n (seed l) Hs st Htot Hinv
             (Hq2 Htot) Hend).
Qed.


Lemma pageUp_value (l : listing P) :
  Len (provider l) <> 0 ->
  min_int <= selected l - pagesize l <= max_int ->
  selected (pageUp l) = Z.max 0 (selected l - pagesize l).
Proof.
  intros Hn Hint. unfold pageUp.
  destruct (Z.eqb_spec (Len (provider l)) 0); [contradiction|].
  cbn. ints. destruct (Z.ltb_spec (selected l - pagesize l) 0); cbn; lia.
Qed.

Lemma pageDown_value (l : listing P) :
  0 < Len (provider l) <= max_int ->
  min_int <= selected l + pagesize l <= max_int ->
  selected (pageDown l)
  = Z.min (Len (provider l) - 1) (selected l + pagesize l).
Proof.
  intros Hn Hint. unfold pageDown.
  destruct (Z.eqb_spec (Len (provider l)) 0); [lia|].
  cbn. ints.
  destruct (Z.leb_spec (Len (provider l)) (selected l + pagesize l));
    cbn; ints; lia.
Qed.

Lemma seed_range (l : listing P) :
  -1 <= selected l < Len (provider l) -> 0 < Len (provider l) ->
  0 <= seed l < Len (provider l).
Proof.
  intros Hs Hn. unfold seed. destruct (Z.eqb_spec (selected l) (-1)); lia.
Qed.

(** C3, amended: for a render of a non-empty set with the selection
    among the entries and a height of at least one line, the window
    holds the selection, the lines collected are no more than the
    height, and the window is the whole set when all lines fit. *)
Theorem List_window (width maxHeight : Z) (l : listing P) :
  0 < count l ->
  0 <= selected l < count l ->
  1 <= maxHeight ->
  fitsInt (provider l) width maxHeight ->
  exists r st,
    List width maxHeight l = Ok r
    /\ shown r = Some st
    /\ low st <= selected l < high st
    /\ 0 <= low st /\ high st <= count l
    /\ len (entries st) = high st - low st
    /\ totalLines (entries st) = height st
    /\ height st <= maxHeight
    /\ (linesFrom (provider l) width (Z.to_nat (count l)) 0 <= maxHeight ->
        low st = 0 /\ high st = count l).
Proof.
  unfold count. intros Hn Hs Hm Hfit.
  assert (Hseed : seed l = selected l).
  { unfold seed. destruct (Z.eqb_spec (selected l) (-1)); lia. }
  destruct (collect_from_start width maxHeight l) as
    (st & Hc & Hinv & Hhigh & _ & Hfull); try assumption; [lia|].
  destruct Hinv as (Hl0 & Hls & Hhn & _ & Hh & Hlen & Htot).
  destruct (List_collected width maxHeight l st) as (body & _ & HL);
    try assumption; [lia|].
  exists (listed width l st body), st. rewrite Hseed in *.
  repeat split; try assumption; try lia; now apply Hfull.
Qed.

(** C5: a turn of the loop that adds an entry with more lines than are
    left of the height keeps the first lines of the entry at the high
    end and the last lines at the low end, as many as are left, and
    brings the height to maxHeight exactly; the lines collected then
    total maxHeight when they totalled the height before. *)
Theorem extend_cuts_lines (p : P) (n width maxHeight : Z) (st : window) :
  let i := if extendsLow n st then isub (low st) 1 else high st in
  let s := Show p i width in
  let lines := strings.Split (text s) nl in
  let budget := maxHeight - height st in
  0 <= height st < maxHeight ->
  maxHeight + lineCount s <= max_int ->
  budget < lineCount s ->
  exists st' s',
    extend p n width maxHeight st = Ok st'
    /\ height st' = maxHeight
    /\ entries st' = (if extendsLow n st then s' :: entries st
                      else entries st ++ [s'])
    /\ style s' = style s
    /\ strings.Split (text s') nl
       = (if extendsLow n st
          then skipn (Z.to_nat (len lines - budget)) lines
          else firstn (Z.to_nat budget) lines)
    /\ lineCount s' = budget
    /\ totalLines (entries st') = totalLines (entries st) + budget.
Proof.
  intros i s lines budget Hh Hfit Hover.
  exists (let s := cutTo (maxHeight - height st) (extendsLow n st)
                    (Show p i width) in
          {| low := if extendsLow n st then isub (low st) 1 else low st;
             high := if extendsLow n st then high st else iadd (high st) 1;
             height := Z.min maxHeight (height st + entryLines p width i);
             entries := if extendsLow n st then s :: entries st
                        else entries st ++ [s];
             extendLow := negb (extendLow st) |}),
    (cutTo budget (extendsLow n st) s).
  pose proof (lineCount_cutTo budget (extendsLow n st) s ltac:(lia)) as Hcut.
  rewrite Z.min_l in Hcut by lia.
  pose proof (Split_length (text s) nl) as Hlen. fold (lineCount s) in Hlen.
  fold lines in Hlen.
  split; [now apply extend_wrapped|].
  cbv zeta. cbn [height entries]. fold s budget.
  unfold entryLines. fold s.
  split; [lia|]. split; [reflexivity|].
  assert (Hsplit : style (cutTo budget (extendsLow n st) s) = style s
                   /\ strings.Split (text (cutTo budget (extendsLow n st) s)) nl
                      = (if extendsLow n st
                         then skipn (Z.to_nat (len lines - budget)) lines
                         else firstn (Z.to_nat budget) lines)).
  { unfold cutTo. destruct (Z.ltb_spec budget (lineCount s)); [|lia].
    cbn [style text]. split; [reflexivity|]. fold lines. rewrite Hlen.
    pose proof (Split_no_sep (text s) nl) as Hall. fold lines in Hall.
    destruct (extendsLow n st); apply Split_Join.
    - intros E. apply (f_equal (@List.length _)) in E.
      rewrite length_skipn in E. unfold len in Hlen. cbn in E. lia.
    - now apply Forall_skipn.
    - intros E. apply (f_equal (@List.length _)) in E.
      rewrite length_firstn in E. unfold len in Hlen. cbn in E. lia.
    - now apply Forall_firstn. }
  destruct Hsplit as [Hstyle Hsplit].
  split; [exact Hstyle|]. split; [exact Hsplit|]. split; [exact Hcut|].
  destruct (extendsLow n st).
  - rewrite totalLines_cons. lia.
  - rewrite totalLines_app, totalLines_cons. cbn [totalLines fold_right]. lia.
Qed.


(** What a render that returned did about the scrollbar. *)
Lemma List_scrollbar_when (width maxHeight : Z) (l : listing P)
  (r : rendered) :
  0 < count l <= max_int ->
  List width maxHeight l = Ok r ->
  exists st body,
    shown r = Some st
    /\ collect (Z.to_nat maxHeight) (provider l) (count l) width maxHeight
         (windowStart l) = Ok st
    /\ writeEntries (Z.to_nat (high st - low st)) (low st) (low st)
         (selected l) (entries st) (newBuffer width) = Ok body
    /\ (scrollbar r <> None <-> 0 < low st \/ high st < count l - 1)
    /\ (0 < low st \/ high st < count l - 1 ->
        let sb := renderScrollbar (count l) (low st) (high st) (height st) in
        scrollbar r = Some sb
        /\ body_width r = isub width 1
        /\ out r = extendHorizontal body sb (isub width 1))
    /\ (low st <= 0 -> count l - 1 <= high st ->
        scrollbar r = None /\ body_width r = width /\ out r = body).
Proof.
  unfold count. intros Hn HL.
  destruct (List_inv width maxHeight l r) as (st & body & Hc & Hw & ->);
    [lia|exact HL|].
  exists st, body. unfold listed. cbn [shown scrollbar body_width out].
  rewrite (isub_id (Len (provider l)) 1) by int_lia.
  split; [reflexivity|]. split; [exact Hc|]. split; [exact Hw|].
  destruct (Z.ltb_spec 0 (low st));
    destruct (Z.ltb_spec (high st) (Len (provider l) - 1)); cbn [orb].
  all: split;
    [split; [intros Hne; try lia; now contradiction Hne
            |intros Hor; try discriminate; lia]|].
  all: split; [intros Hbar; try lia; cbv zeta; auto|].
  all: intros Hlo Hhi; try lia; auto.
Qed.

(** C9: with no entries, List skips the window and writes only the
    placeholder, trimmed to the width: the provider's own when it is a
    Placeholderer, "(no result)" otherwise; the listing is left as it
    is, and so it is by up, down, pageUp and pageDown. *)
Theorem List_empty (width maxHeight : Z) (l : listing P) :
  count l = 0 ->
  exists r,
    List width maxHeight l = Ok r
    /\ shown r = None /\ scrollbar r = None /\ after r = l
    /\ (forall Placeholder,
          asPlaceholderer = Some Placeholder ->
          out r = writes (newBuffer width)
                    (TrimWcWidth (Placeholder (provider l)) width) [])
    /\ (asPlaceholderer = None ->
        out r = writes (newBuffer width) (TrimWcWidth noResult width) [])
    /\ (forall m, step l m = l).
Proof.
  unfold count. intros Hzero. eexists. unfold List. rewrite Hzero, Z.eqb_refl.
  split; [reflexivity|]. cbn [shown scrollbar after out].
  split; [reflexivity|]. split; [reflexivity|]. split; [reflexivity|].
  split; [|split].
  - intros f ->. reflexivity.
  - intros ->. reflexivity.
  - intros m. now apply step_empty.
Qed.

(** C10, amended: with entries to show and a height of at least one
    line, the first entry List collects is that of the seed index, the
    window holds it, and the page size is the number of entries of the
    window, at least 1, so that pageUp and pageDown move a selection
    that is not at the end they go to; with a height of 0 or less
    nothing is collected and the page size is 0, so that pageDown keeps
    the selection, and pageUp keeps it unless it is -1, which becomes
    0. *)
Theorem List_pagesize (width maxHeight : Z) (l : listing P) :
  0 < count l <= max_int ->
  -1 <= selected l < count l ->
  (1 <= maxHeight -> fitsInt (provider l) width maxHeight ->
   exists r st st1,
     List width maxHeight l = Ok r
     /\ shown r = Some st
     /\ extend (provider l) (count l) width maxHeight (windowStart l)
        = Ok st1
     /\ low st1 = seed l /\ high st1 = seed l + 1
     /\ entries st1
        = [cutTo maxHeight false (Show (provider l) (seed l) width)]
     /\ collect (Z.to_nat maxHeight) (provider l) (count l) width
          maxHeight (windowStart l)
        = collect (Z.to_nat (maxHeight - 1)) (provider l) (count l) width
            maxHeight st1
     /\ low st <= seed l < high st
     /\ pagesize (after r) = high st - low st
     /\ 1 <= pagesize (after r)
     /\ selected (after r) = selected l
     /\ (0 < selected l -> selected (pageUp (after r)) < selected l)
     /\ (selected l < count l - 1 ->
         selected l < selected (pageDown (after r))))
  /\ (maxHeight <= 0 ->
      exists r,
        List width maxHeight l = Ok r
        /\ shown r = Some (windowStart l)
        /\ entries (windowStart l) = []
        /\ pagesize (after r) = 0
        /\ selected (pageDown (after r)) = selected l
        /\ selected (pageUp (after r)) = Z.max 0 (selected l)).
Proof.
  unfold count. intros Hn Hs. pose proof (seed_range l Hs ltac:(lia)) as Hsd.
  split.
  - intros Hm Hfit.
    destruct (collect_from_start width maxHeight l Hsd Hm Hfit) as
      (st & Hc & Hinv & Hhigh & _ & _).
    destruct Hinv as (Hl0 & Hls & Hhn & _ & Hh & Hlen & Htot).
    destruct (List_collected width maxHeight l st) as (body & _ & HL);
      try assumption; [lia|].
    assert (Hc0 : windowCond (Len (provider l)) maxHeight (windowStart l)
                  = true).
    { unfold windowCond, windowStart. fold (seed l). cbn [low high height].
      destruct (Z.ltb_spec 0 maxHeight); [|lia].
      destruct (Z.eqb_spec (seed l) (Len (provider l))); [lia|].
      now rewrite andb_false_r. }
    assert (Hlow0 : extendsLow (Len (provider l)) (windowStart l) = false).
    { unfold extendsLow, windowStart. fold (seed l).
      cbn [low high extendLow andb orb].
      destruct (Z.eqb_spec (seed l) (Len (provider l))); [lia|reflexivity]. }
    destruct Hfit as [Hfit1 Hfit2].
    pose proof (extend_step (provider l) width maxHeight (Len (provider l))
                  (windowStart l)) as He.
    rewrite Hlow0 in He. cbv zeta in He.
    change (low (windowStart l)) with (seed l) in He.
    change (high (windowStart l)) with (seed l) in He.
    change (height (windowStart l)) with 0 in He.
    change (entries (windowStart l)) with (@nil styled) in He.
    change (extendLow (windowStart l)) with false in He.
    cbn [app negb] in He. rewrite Z.sub_0_r in He.
    specialize (He ltac:(lia) ltac:(int_lia) ltac:(int_lia)
                  (Hfit2 _ Hsd)).
    eexists (listed width l st body), st, _.
    split; [exact HL|]. split; [reflexivity|]. split; [exact He|].
    cbn [low high entries]. split; [reflexivity|]. split; [reflexivity|].
    split; [reflexivity|]. split.
    { replace (Z.to_nat maxHeight) with (S (Z.to_nat (maxHeight - 1))) by lia.
      cbn [collect]. rewrite Hc0, He. reflexivity. }
    split; [lia|].
    unfold listed. cbn [after].
    pose proof (totalLines_ge (entries st)) as Hge.
    assert (Hps : isub (high st) (low st) = high st - low st)
      by (ints; reflexivity).
    rewrite Hps. cbn [pagesize set_pagesize selected].
    split; [reflexivity|]. split; [lia|]. split; [reflexivity|].
    split.
    + intros Hpos. rewrite pageUp_value;
        cbn [provider selected pagesize set_pagesize]; int_lia.
    + intros Hlast. rewrite pageDown_value;
        cbn [provider selected pagesize set_pagesize]; int_lia.
  - intros Hm.
    assert (Hc : collect (Z.to_nat maxHeight) (provider l)
                   (Len (provider l)) width maxHeight (windowStart l)
                 = Ok (windowStart l)).
    { replace (Z.to_nat maxHeight) with 0%nat by lia. cbn [collect].
      unfold windowCond. cbn [windowStart height].
      destruct (Z.ltb_spec 0 maxHeight); [lia|reflexivity]. }
    destruct (List_collected width maxHeight l (windowStart l))
      as (body & _ & HL); [lia|exact Hc| |].
    { cbn [windowStart entries low high]. rewrite Z.sub_diag. reflexivity. }
    exists (listed width l (windowStart l) body).
    split; [exact HL|]. split; [reflexivity|]. split; [reflexivity|].
    unfold listed. cbn [after]. cbn [windowStart low high].
    unfold isub at 1 2 3. rewrite Z.sub_diag. change (wrap 0) with 0.
    cbn [pagesize set_pagesize].
    split; [reflexivity|]. split.
    + rewrite pageDown_value;
        cbn [provider selected pagesize set_pagesize]; int_lia.
    + rewrite pageUp_value;
        cbn [provider selected pagesize set_pagesize]; int_lia.
Qed.

End ListFacts.

(** ** The scrollbar interval on the samples *)

(** C1: with three entries of which the last is shown on one line, both
    ends of the window are mapped to row 1 and the interval is widened to
    [1, 2): it ends past the only row, and the column that List draws
    for it has no thumb at all. *)
Theorem scrollbar_thumb_off_track :
  findScrollInterval 3 2 3 1 = (1, 2)
  /\ exists r,
      List 80 1 (set_selected sampleListing 2) = Ok r
      /\ scrollbar r = Some (write (newBuffer 1) track styleForScrollBar).
Proof.
  split; [vm_compute; reflexivity|].
  eexists. split; vm_compute; reflexivity.
Qed.

(** C2: with 100 entries on 5 rows, 99 and 100 are both mapped to row 5,
    the full height, and the interval is widened downward, to [5, 6);
    the upward step is taken when the mapped end equals the index high
    of the window, as for an empty window at the top, mapped to row 0 and
    widened to [-1, 0). *)
Theorem scrollbar_widening_compares_index :
  scrollScale 100 5 99 = 5
  /\ scrollScale 100 5 100 = 5
  /\ findScrollInterval 100 99 100 5 = (5, 6)
  /\ scrollScale 10 5 0 = 0
  /\ findScrollInterval 10 0 0 5 = (-1, 0).
Proof. repeat split; vm_compute; reflexivity. Qed.

(** C4: a listing that starts on three entries of which the provider's
    Filter selects none has the selection -1, within [-1, count-1]; there
    up puts the selection at -2, below the range, whether it cycles or
    not, where down and pageUp go to 0 and List starts its window at 0;
    the window of the render after up starts at -2. *)
Theorem up_leaves_range :
  count heldListing = 3
  /\ selected heldListing = -1
  /\ selected (up false heldListing) = -2
  /\ selected (up true heldListing) = -2
  /\ ~ (-1 <= selected (up false heldListing) <= count heldListing - 1)
  /\ selected (down false heldListing) = 0
  /\ selected (pageUp heldListing) = 0
  /\ selected (pageDown heldListing) = -1
  /\ (exists r : rendered (buffer := recorder),
        List 80 2 heldListing = Ok r
        /\ option_map (fun st => (low st, high st)) (shown r) = Some (0, 2))
  /\ low (windowStart (up false heldListing)) = -2.
Proof.
  repeat match goal with |- _ /\ _ => split end.
  all: try (vm_compute; reflexivity).
  - intros Hr. change (selected (up false heldListing)) with (-2) in Hr.
    lia.
  - eexists. split; vm_compute; reflexivity.
Qed.

(** The mapping of the example of the specification: rows 0 to 3 of 5 for
    the first five of ten entries. *)
Example findScrollInterval_half : findScrollInterval 10 0 5 5 = (0, 3).
Proof. vm_compute. reflexivity. Qed.

(** ** The theorems on the samples *)

Ltac closed_arith :=
  vm_compute; repeat split; (reflexivity || discriminate).

Lemma sample_fits (maxHeight : Z) :
  0 <= maxHeight <= 1000 -> fitsInt sampleEntries 80 maxHeight.
Proof.
  intros Hm. split.
  - change (Len sampleEntries) with 3. int_lia.
  - change (Len sampleEntries) with 3. intros i Hi.
    assert (i = 0 \/ i = 1 \/ i = 2) as [-> | [-> | ->]] by lia.
    + change (entryLines sampleEntries 80 0) with 1. int_lia.
    + change (entryLines sampleEntries 80 1) with 3. int_lia.
    + change (entryLines sampleEntries 80 2) with 1. int_lia.
Qed.

Lemma sample_deterministic : deterministic (P := list gostring).
Proof. intros p p' t. reflexivity. Qed.

Lemma navigation_in_range_witness :
  (forall ms,
      validState (run ms sampleListing)
      /\ count (run ms sampleListing) = count sampleListing
      /\ -1 <= selected (run ms sampleListing) <= count sampleListing - 1)
  /\ selected (up true sampleListing) = 2
  /\ selected (up false sampleListing) = 0.
Proof.
  assert (Hv : validState sampleListing) by closed_arith.
  destruct (navigation_in_range sampleListing Hv) as (Hrun & _).
  split; [exact Hrun|]. split; vm_compute; reflexivity.
Defined.

Lemma List_window_witness :
  exists r st,
    List 80 2 sampleListing = Ok r
    /\ shown r = Some st
    /\ low st <= selected sampleListing < high st
    /\ 0 <= low st /\ high st <= count sampleListing
    /\ len (entries st) = high st - low st
    /\ totalLines (entries st) = height st
    /\ height st <= 2
    /\ (linesFrom (provider sampleListing) 80
          (Z.to_nat (count sampleListing)) 0 <= 2 ->
        low st = 0 /\ high st = count sampleListing).
Proof.
  apply (List_window 80 2 sampleListing);
    [closed_arith|closed_arith|closed_arith|].
  apply sample_fits. closed_arith.
Defined.

(** The window of the first sample entry after one turn of the loop. *)
Lemma extend_cuts_lines_witness :
  let st := {| low := 0; high := 1; height := 1;
               entries := [Show sampleEntries 0 80]; extendLow := true |} in
  exists st' s',
    extend sampleEntries 3 80 2 st = Ok st'
    /\ height st' = 2
    /\ entries st' = entries st ++ [s']
    /\ style s' = []
    /\ strings.Split (text s') nl = [[x61]]
    /\ lineCount s' = 1
    /\ totalLines (entries st') = totalLines (entries st) + 1.
Proof.
  intros st.
  destruct (extend_cuts_lines sampleEntries 3 80 2 st)
    as (st' & s' & Hw); [closed_arith|closed_arith|closed_arith|].
  exists st', s'. exact Hw.
Defined.

Lemma backspace_last_character_witness :
  backspace (snd (handleFilterKey sampleKey sampleListing))
  = Ok (true, sampleListing).
Proof.
  set (l := snd (handleFilterKey sampleKey sampleListing)).
  assert (Hlen : len (filter l) <= max_int) by closed_arith.
  destruct (backspace_last_character l Hlen) as (_ & _ & Henc).
  exact (Henc [] 0xE9 eq_refl).
Defined.

Lemma append_then_backspace_witness :
  fst (handleFilterKey sampleKey sampleListing) = true
  /\ exists l2,
      backspace (snd (handleFilterKey sampleKey sampleListing)) = Ok (true, l2)
      /\ filter l2 = filter sampleListing
      /\ selected l2 = selected (changeFilter (filter sampleListing)
                                   sampleListing).
Proof.
  destruct (append_then_backspace sampleListing sampleKey)
    as (Hfst & _ & l2 & Hback & Hfilter & _ & Hdet);
    [closed_arith|closed_arith|].
  split; [exact Hfst|]. exists l2. split; [exact Hback|].
  split; [exact Hfilter|]. apply Hdet, sample_deterministic.
Defined.

Lemma List_empty_witness :
  exists r,
    List 80 3 emptyListing = Ok r
    /\ out r = writes (newBuffer 80) noResult []
    /\ after r = emptyListing
    /\ (forall m, step emptyListing m = emptyListing).
Proof.
  destruct (List_empty 80 3 emptyListing)
    as (r & HL & _ & _ & Hafter & _ & Hout & Hstep); [closed_arith|].
  exists r. split; [exact HL|]. split; [exact (Hout eq_refl)|].
  split; [exact Hafter|exact Hstep].
Defined.

Lemma List_pagesize_witness :
  (exists r st,
      List 80 2 sampleListing = Ok r
      /\ shown r = Some st
      /\ low st <= seed sampleListing < high st
      /\ pagesize (after r) = high st - low st
      /\ 1 <= pagesize (after r))
  /\ (exists r,
        List 80 0 sampleListing = Ok r
        /\ pagesize (after r) = 0
        /\ selected (pageDown (after r)) = selected sampleListing
        /\ selected (pageUp (after r)) = Z.max 0 (selected sampleListing)).
Proof.
  destruct (List_pagesize 80 2 sampleListing) as [Hpos _];
    [closed_arith|closed_arith|].
  destruct (List_pagesize 80 0 sampleListing) as [_ Hzero];
    [closed_arith|closed_arith|].
  split.
  - destruct (Hpos ltac:(closed_arith) (sample_fits 2 ltac:(closed_arith)))
      as (r & st & st1 & HL & Hshown & _ & _ & _ & _ & _
          & Hseed & Hps & Hp1 & _).
    exists r, st. repeat split; assumption || apply Hseed.
  - destruct (Hzero ltac:(closed_arith))
      as (r & HL & _ & _ & Hps & Hdown & Hup).
    exists r. repeat split; assumption.
Defined.

(** At the low end the last line is the one kept: with the last sample
    entry collected and one line left, the entry before it is cut to its
    line "d". *)
Example extend_keeps_last_line :
  extend sampleEntries 3 80 2
    {| low := 2; high := 3; height := 1;
       entries := [Show sampleEntries 2 80]; extendLow := true |}
  = Ok {| low := 1; high := 3; height := 2;
          entries := [{| text := [x64]; style := [] |};
                      {| text := [x62]; style := [] |}];
          extendLow := false |}.
Proof. vm_compute. reflexivity. Qed.

(** An entry of more lines than the whole height is cut to its first
    lines, and the page size is 1. *)
Example List_tall_entry :
  exists r st,
    List 80 2 (set_selected sampleListing 1) = Ok r
    /\ shown r = Some st
    /\ (low st, high st, height st) = (1, 2, 2)
    /\ entries st = [{| text := [x61; x0a; x63]; style := [] |}]
    /\ pagesize (after r) = 1.
Proof.
  eexists. eexists. split; [vm_compute; reflexivity|].
  repeat split; reflexivity.
Qed.

(** ** Where the code departs from the specification *)

(** C3 as stated: with a height of 0 no entry is collected and the window
    is empty, so it does not hold the selection. *)
Lemma window_empty_at_zero_height :
  exists r st,
    List 80 0 sampleListing = Ok r
    /\ shown r = Some st
    /\ 0 < count sampleListing
    /\ 0 <= selected sampleListing < count sampleListing
    /\ ~ (low st <= selected sampleListing < high st).
Proof.
  eexists. eexists. split; [vm_compute; reflexivity|].
  split; [reflexivity|]. split; [closed_arith|]. split; [closed_arith|].
  cbn [low high]. change (selected sampleListing) with 0. lia.
Qed.

(** C10 as stated: with entries, no selection and a height of 0, the page
    size is 0 and pageUp still moves the selection, from -1 to 0. *)
Lemma pageUp_moves_unselected :
  exists r,
    List 80 0 unselectedListing = Ok r
    /\ 0 < count unselectedListing
    /\ pagesize (after r) = 0
    /\ selected (after r) = -1
    /\ selected (pageUp (after r)) = 0.
Proof.
  eexists. split; [vm_compute; reflexivity|].
  repeat split; vm_compute; reflexivity.
Qed.

(** ** More on moving the selection *)

Section MoreMoves.

Context {P : Type} `{listingProvider P}.

Lemma listing_eq (l l' : listing P) :
  provider l = provider l' -> selected l = selected l' ->
  filter l = filter l' -> pagesize l = pagesize l' -> l = l'.
Proof. destruct l, l'; cbn; intros; subst; reflexivity. Qed.

Lemma step_count (l : listing P) (m : move) : count (step l m) = count l.
Proof. unfold count. now destruct (step_frame l m) as (-> & _). Qed.

Lemma step_eq (l : listing P) (m : move) (i : Z) :
  selected (step l m) = i -> step l m = set_selected l i.
Proof.
  intros Hs. destruct (step_frame l m) as (Hp & Hps & Hf).
  apply listing_eq; cbn; assumption.
Qed.

Lemma set_selected_same (l : listing P) : set_selected l (selected l) = l.
Proof. now destruct l. Qed.

Lemma run_keeps (ms : list move) :
  forall l : listing P,
    provider (run ms l) = provider l
    /\ filter (run ms l) = filter l
    /\ pagesize (run ms l) = pagesize l.
Proof.
  induction ms as [|m ms IH]; intros l; cbn; [auto|].
  destruct (IH (step l m)) as (Hp & Hf & Hps).
  destruct (step_frame l m) as (Hp' & Hps' & Hf').
  unfold run in *. rewrite Hp, Hf, Hps, Hp', Hf', Hps'. auto.
Qed.

(** X1: a sequence of calls of up, down, pageUp and pageDown changes the
    selection only: the provider, the filter text and the page size are
    those of the start, and so is the number of entries. *)
Theorem run_frame (ms : list move) (l : listing P) :
  provider (run ms l) = provider l
  /\ filter (run ms l) = filter l
  /\ pagesize (run ms l) = pagesize l
  /\ count (run ms l) = count l.
Proof.
  destruct (run_keeps ms l) as (Hp & Hf & Hps).
  unfold count. rewrite Hp. auto.
Qed.

Lemma down_cycle_mod (l : listing P) :
  validState l -> 0 < count l ->
  selected (down true l) = (selected l + 1) mod count l.
Proof.
  intros Hv Hn. rewrite down_selected by assumption.
  unfold validState in Hv.
  destruct (Z.eqb_spec (selected l) (count l - 1)) as [E|E].
  - replace (selected l + 1) with (count l) by lia.
    now rewrite Z.mod_same by lia.
  - rewrite Z.mod_small; lia.
Qed.

Lemma up_cycle_mod (l : listing P) :
  validState l -> 0 < count l ->
  selected (up true l) = (selected l - 1) mod count l.
Proof.
  intros Hv Hn. rewrite up_selected by assumption.
  unfold validState in Hv.
  destruct (Z.eqb_spec (selected l) 0) as [E|E].
  - rewrite E. replace (0 - 1) with (count l - 1 + (-1) * count l) by lia.
    rewrite Z.mod_add, Z.mod_small by lia. lia.
  - rewrite Z.mod_small; lia.
Qed.

(** X2: with entries and a selection in range, up and down with cycling
    undo each other in both orders, at the ends of the list as well: the
    whole listing is the one before. *)
Theorem cycle_inverse (l : listing P) :
  validState l -> 0 < count l ->
  down true (up true l) = l /\ up true (down true l) = l.
Proof.
  intros Hv Hn.
  pose proof (step_valid l (Up true) Hv) as Hvu.
  pose proof (step_valid l (Down true) Hv) as Hvd.
  pose proof (step_count l (Up true)) as Hcu.
  pose proof (step_count l (Down true)) as Hcd.
  cbn [step] in *. unfold validState in Hv.
  destruct (step_frame l (Up true)) as (Hpu & Hpsu & Hfu).
  destruct (step_frame l (Down true)) as (Hpd & Hpsd & Hfd).
  destruct (step_frame (up true l) (Down true)) as (Hp1 & Hps1 & Hf1).
  destruct (step_frame (down true l) (Up true)) as (Hp2 & Hps2 & Hf2).
  cbn [step] in *.
  split; apply listing_eq; try congruence.
  - rewrite down_selected, Hcu, up_selected by (assumption || lia).
    destruct (Z.eqb_spec (selected l) 0) as [E|E].
    + rewrite Z.eqb_refl. lia.
    + destruct (Z.eqb_spec (selected l - 1) (count l - 1)); lia.
  - rewrite up_selected, Hcd, down_selected by (assumption || lia).
    destruct (Z.eqb_spec (selected l) (count l - 1)) as [E|E].
    + rewrite Z.eqb_refl. lia.
    + destruct (Z.eqb_spec (selected l + 1) 0); lia.
Qed.

Lemma run_repeat_S (m : move) (k : nat) (l : listing P) :
  run (repeat m (S k)) l = run (repeat m k) (step l m).
Proof. reflexivity. Qed.

(** X3: with entries and a selection in range, k calls of down with cycling
    put the selection at (selected + k) mod count and k calls of up with
    cycling at (selected - k) mod count; count calls of either give the
    listing back. *)
Theorem cycle_steps (l : listing P) (k : nat) :
  validState l -> 0 < count l ->
  selected (run (repeat (Down true) k) l)
  = (selected l + Z.of_nat k) mod count l
  /\ selected (run (repeat (Up true) k) l)
     = (selected l - Z.of_nat k) mod count l
  /\ (Z.of_nat k = count l ->
      run (repeat (Down true) k) l = l /\ run (repeat (Up true) k) l = l).
Proof.
  intros Hv Hn.
  assert (Hdown : forall k l, validState l -> 0 < count l ->
            selected (run (repeat (Down true) k) l)
            = (selected l + Z.of_nat k) mod count l).
  { clear. intros k. induction k as [|k IH]; intros l Hv Hn.
    - cbn. unfold validState in Hv. rewrite Z.add_0_r, Z.mod_small; lia.
    - rewrite run_repeat_S, IH;
        [|apply step_valid, Hv|rewrite step_count; exact Hn].
      rewrite step_count. cbn [step]. rewrite down_cycle_mod by assumption.
      rewrite Z.add_mod_idemp_l by lia. f_equal. lia. }
  assert (Hup : forall k l, validState l -> 0 < count l ->
            selected (run (repeat (Up true) k) l)
            = (selected l - Z.of_nat k) mod count l).
  { clear. intros k. induction k as [|k IH]; intros l Hv Hn.
    - cbn. unfold validState in Hv. rewrite Z.sub_0_r, Z.mod_small; lia.
    - rewrite run_repeat_S, IH;
        [|apply step_valid, Hv|rewrite step_count; exact Hn].
      rewrite step_count. cbn [step]. rewrite up_cycle_mod by assumption.
      rewrite Zminus_mod_idemp_l. f_equal. lia. }
  split; [now apply Hdown|]. split; [now apply Hup|].
  intros Hk. unfold validState in Hv.
  split; apply listing_eq; try apply run_keeps.
  - rewrite Hdown, Hk by assumption.
    replace (selected l + count l) with (selected l + 1 * count l) by lia.
    rewrite Z.mod_add, Z.mod_small; lia.
  - rewrite Hup, Hk by assumption.
    replace (selected l - count l) with (selected l + (-1) * count l) by lia.
    rewrite Z.mod_add, Z.mod_small; lia.
Qed.

(** X4: with entries and a selection in range, k calls of pageUp put the
    selection at max 0 (selected - k * pagesize) and k calls of pageDown
    at min (count - 1) (selected + k * pagesize): page moves stop at the
    ends and never wrap. *)
Theorem page_steps (l : listing P) (k : nat) :
  validState l -> 0 < count l ->
  selected (run (repeat PageUp k) l)
  = Z.max 0 (selected l - Z.of_nat k * pagesize l)
  /\ selected (run (repeat PageDown k) l)
     = Z.min (count l - 1) (selected l + Z.of_nat k * pagesize l).
Proof.
  intros Hv Hn. split.
  - revert l Hv Hn. induction k as [|k IH]; intros l Hv Hn.
    + cbn. unfold validState in Hv. lia.
    + rewrite run_repeat_S, IH;
        [|apply step_valid, Hv|rewrite step_count; exact Hn].
      destruct (step_frame l PageUp) as (_ & -> & _).
      cbn [step]. rewrite pageUp_selected by assumption.
      unfold validState in Hv. nia.
  - revert l Hv Hn. induction k as [|k IH]; intros l Hv Hn.
    + cbn. unfold validState in Hv. lia.
    + rewrite run_repeat_S, IH;
        [|apply step_valid, Hv|rewrite step_count; exact Hn].
      destruct (step_frame l PageDown) as (_ & -> & _).
      rewrite step_count.
      cbn [step]. rewrite pageDown_selected by assumption.
      unfold validState in Hv. nia.
Qed.

End MoreMoves.

(** ** More on the filter *)

Section FilterRunFacts.

Context {P : Type} `{listingProvider P}.
Context `{package}.

Lemma encodeAll_snoc (rs : list Z) (c : Z) :
  encodeAll (rs ++ [c]) = encodeAll rs ++ utf8.encode c.
Proof.
  unfold encodeAll. rewrite map_app, concat_app. cbn. now rewrite app_nil_r.
Qed.

Lemma encode_length (c : Z) : 1 <= len (utf8.encode c) <= 4.
Proof. exact (proj2 (DecodeLast_encode [] c)). Qed.

Lemma encodeAll_length (rs : list Z) :
  len rs <= len (encodeAll rs) <= 4 * len rs.
Proof.
  induction rs as [|c rs IH]; [cbn; lia|].
  change (encodeAll (c :: rs)) with (utf8.encode c ++ encodeAll rs).
  rewrite len_app, len_cons. pose proof (encode_length c). lia.
Qed.

Lemma typeKeys_filter (ks : list Key) :
  forall l : listing P,
    forallb likeChar ks = true ->
    filter (typeKeys ks l) = filter l ++ encodeAll (map Rune ks)
    /\ pagesize (typeKeys ks l) = pagesize l.
Proof.
  induction ks as [|k ks IH]; intros l Hks; cbn.
  - now rewrite app_nil_r.
  - cbn in Hks. apply andb_true_iff in Hks. destruct Hks as [Hk Hks].
    destruct (IH (snd (handleFilterKey k l)) Hks) as [Hf Hp].
    unfold typeKeys in Hf, Hp. rewrite Hf, Hp.
    unfold handleFilterKey. rewrite Hk. cbn [snd].
    rewrite changeFilter_fields. cbn [filter pagesize].
    change (encodeAll (Rune k :: map Rune ks))
      with (utf8.encode (Rune k) ++ encodeAll (map Rune ks)).
    now rewrite app_assoc.
Qed.

Lemma backspaces_encoded (rs : list Z) :
  forall (t : gostring) (l : listing P),
    filter l = t ++ encodeAll rs ->
    len (filter l) <= max_int ->
    exists l2,
      backspaces (List.length rs) l = Ok (repeat true (List.length rs), l2)
      /\ filter l2 = t
      /\ pagesize l2 = pagesize l
      /\ (rs <> [] ->
          exists p,
            l2 = changeFilter t
                   {| provider := p; selected := 0;
                      filter := []; pagesize := pagesize l |}).
Proof.
  induction rs as [|c rs IH] using rev_ind; intros t l Hf Hint.
  - exists l. cbn in *. rewrite app_nil_r in Hf.
    repeat split; auto. congruence.
  - rewrite encodeAll_snoc, app_assoc in Hf.
    rewrite length_app, Nat.add_comm. cbn [List.length Nat.add backspaces].
    rewrite (backspace_encoded l _ c Hint Hf). cbn [bind].
    set (l1 := changeFilter (t ++ encodeAll rs) l).
    assert (Hf1 : filter l1 = t ++ encodeAll rs).
    { unfold l1. now rewrite changeFilter_fields. }
    assert (Hp1 : pagesize l1 = pagesize l).
    { unfold l1. now rewrite changeFilter_fields. }
    destruct (IH t l1 Hf1) as (l2 & Hb & Hf2 & Hp2 & Hsel).
    { rewrite Hf1. rewrite Hf, len_app in Hint.
      pose proof (encode_length c). lia. }
    exists l2. rewrite Hb. cbn [bind repeat].
    split; [reflexivity|]. split; [exact Hf2|]. split; [congruence|].
    intros _. destruct rs as [|c' rs'].
    + cbn in Hb. injection Hb as <-. exists (provider l).
      unfold l1. cbn. rewrite app_nil_r, !changeFilter_fields. reflexivity.
    + destruct Hsel as [p Hp]; [discriminate|]. exists p. now rewrite Hp, Hp1.
Qed.

(** X5: after handleFilterKey on keys that are all like characters the
    filter is the old text followed by the encoded runes of the keys, and
    as many calls of backspace as there were keys all return true and
    give the old text back; the page size is untouched, and when Filter
    picks the selection from the text alone the selection is the one of
    the old text. *)
Theorem type_then_delete (ks : list Key) (l : listing P) :
  forallb likeChar ks = true ->
  len (filter l) + 4 * len ks <= max_int ->
  let l1 := typeKeys ks l in
  filter l1 = filter l ++ encodeAll (map Rune ks)
  /\ exists l2,
      backspaces (List.length ks) l1 = Ok (repeat true (List.length ks), l2)
      /\ filter l2 = filter l
      /\ pagesize l2 = pagesize l
      /\ (ks <> [] -> deterministic ->
          selected l2 = selected (changeFilter (filter l) l)).
Proof.
  intros Hks Hint l1. destruct (typeKeys_filter ks l Hks) as [Hf Hp].
  fold l1 in Hf, Hp. split; [exact Hf|].
  destruct (backspaces_encoded (map Rune ks) (filter l) l1 Hf)
    as (l2 & Hb & Hf2 & Hp2 & Hsel).
  { rewrite Hf, len_app. pose proof (encodeAll_length (map Rune ks)) as Hl.
    unfold len in *. rewrite length_map in *. lia. }
  rewrite length_map in Hb. exists l2.
  split; [exact Hb|]. split; [exact Hf2|]. split; [congruence|].
  intros Hne Hdet. destruct Hsel as [p ->].
  { destruct ks; [congruence|discriminate]. }
  rewrite !changeFilter_fields. cbn [selected provider]. apply Hdet.
Qed.

Lemma filterStep_whole (l : listing P) (op : filterOp) :
  wholeChars l -> len (filter l) <= max_int ->
  exists l',
    filterStep l op = Ok l'
    /\ wholeChars l'
    /\ len (filter l') <= len (filter l) + 4.
Proof.
  intros [rs Hrs] Hint. destruct op as [k|]; cbn [filterStep].
  - eexists. split; [reflexivity|]. unfold handleFilterKey.
    destruct (likeChar k); cbn [snd].
    + rewrite changeFilter_fields. cbn [filter]. split.
      * exists (rs ++ [Rune k]). now rewrite encodeAll_snoc, Hrs.
      * rewrite len_app. pose proof (encode_length (Rune k)). lia.
    + split; [now exists rs|lia].
  - destruct rs as [|c rs] using rev_ind.
    + assert (Hb : backspace l = Ok (false, l))
        by (unfold backspace; rewrite Hrs; reflexivity).
      rewrite Hb. cbn [bind].
      exists l. split; [reflexivity|]. split; [exists []; exact Hrs|lia].
    + rewrite encodeAll_snoc in Hrs.
      rewrite (backspace_encoded l _ c Hint Hrs). cbn [bind].
      eexists. split; [reflexivity|]. rewrite changeFilter_fields.
      cbn [filter]. split; [now exists rs|].
      rewrite Hrs, len_app. pose proof (encode_length c). lia.
Qed.

(** X6: from a new listing every run of keys and backspaces ends without a
    panic, and the filter text it leaves is a sequence of whole encoded
    characters of at most four bytes for each operation: backspace never
    cuts a character that handleFilterKey wrote in two. *)
Theorem filter_whole_characters (p : P) (ops : list filterOp) :
  4 * len ops <= max_int ->
  exists l,
    filterRun ops (newListing p) = Ok l
    /\ wholeChars l
    /\ len (filter l) <= 4 * len ops.
Proof.
  intros Hint.
  assert (Hgen : forall ops (l0 : listing P),
            wholeChars l0 -> len (filter l0) + 4 * len ops <= max_int ->
            exists l, filterRun ops l0 = Ok l /\ wholeChars l
                      /\ len (filter l) <= len (filter l0) + 4 * len ops).
  { clear. intros ops. induction ops as [|op ops IH]; intros l0 Hw Hint.
    - exists l0. cbn. repeat split; auto. lia.
    - rewrite len_cons in Hint. pose proof (len_nonneg ops).
      destruct (filterStep_whole l0 op Hw ltac:(lia)) as (l1 & Hs & Hw1 & Hl1).
      cbn [filterRun]. rewrite Hs. cbn [bind].
      destruct (IH l1 Hw1 ltac:(lia)) as (l & Hr & Hwl & Hl).
      exists l. rewrite len_cons. repeat split; auto. lia. }
  assert (Hnew : filter (newListing p) = []).
  { unfold newListing. now rewrite changeFilter_fields. }
  destruct (Hgen ops (newListing p)) as (l & Hr & Hw & Hl).
  - exists []. exact Hnew.
  - rewrite Hnew. change (len (@nil byte)) with 0. lia.
  - exists l. rewrite Hnew in Hl. change (len (@nil byte)) with 0 in Hl.
    repeat split; auto.
Qed.

End FilterRunFacts.

(** ** More on the window *)

Section WindowShapeFacts.

Context {P : Type} `{listingProvider P}.
Context {buffer : Type} `{bufferOps buffer}.
Context `{package}.

Lemma Zrange_snoc (k : nat) :
  forall lo, Zrange lo (S k) = Zrange lo k ++ [lo + Z.of_nat k].
Proof.
  induction k as [|k IH]; intros lo.
  - cbn. now rewrite Z.add_0_r.
  - change (Zrange lo (S (S k))) with (lo :: Zrange (lo + 1) (S k)).
    rewrite IH.
    replace (lo + 1 + Z.of_nat k) with (lo + Z.of_nat (S k)) by lia.
    reflexivity.
Qed.

Lemma shownEntries_snoc (p : P) (width lo : Z) (k : nat) :
  shownEntries p width lo (S k)
  = shownEntries p width lo k ++ [Show p (lo + Z.of_nat k) width].
Proof. unfold shownEntries. now rewrite Zrange_snoc, map_app. Qed.

Lemma linesFrom_snoc (p : P) (width lo : Z) (k : nat) :
  linesFrom p width (S k) lo
  = linesFrom p width k lo + entryLines p width (lo + Z.of_nat k).
Proof.
  replace (S k) with (k + 1)%nat by lia.
  rewrite linesFrom_app. cbn [linesFrom]. lia.
Qed.

Lemma cutTo_full (budget : Z) (fromLow : bool) (s : styled) :
  lineCount s <= budget -> cutTo budget fromLow s = s.
Proof.
  intros Hb. unfold cutTo.
  destruct (Z.ltb_spec budget (lineCount s)); [lia|reflexivity].
Qed.

(** What a turn of the loop yields from a state of the invariant. *)
Lemma extend_result (width maxHeight : Z) (l : listing P)
  (st st' : window) :
  let p := provider l in
  let n := Len p in
  0 <= seed l < n ->
  fitsInt p width maxHeight ->
  windowInv n maxHeight (seed l) st ->
  windowCond n maxHeight st = true ->
  extend p n width maxHeight st = Ok st' ->
  let i := if extendsLow n st then low st - 1 else high st in
  height st < maxHeight
  /\ 0 <= i < n
  /\ (extendsLow n st = true -> 0 < low st /\ seed l < high st)
  /\ (extendsLow n st = false -> high st < n)
  /\ st' = {| low := if extendsLow n st then low st - 1 else low st;
              high := if extendsLow n st then high st else high st + 1;
              height := Z.min maxHeight (height st + entryLines p width i);
              entries :=
                if extendsLow n st
                then cutTo (maxHeight - height st) true (Show p i width)
                     :: entries st
                else entries st
                     ++ [cutTo (maxHeight - height st) false
                           (Show p i width)];
              extendLow := negb (extendLow st) |}.
Proof.
  intros p n Hsd Hfit Hinv Hc He i.
  destruct (extend_index maxHeight n (seed l) Hsd st Hinv Hc)
    as (Hi & Hlo & Hhi).
  fold i in Hi.
  assert (Hc1 : height st < maxHeight).
  { unfold windowCond in Hc. apply andb_true_iff in Hc.
    destruct Hc as [Hc _]. now apply Z.ltb_lt in Hc. }
  destruct Hinv as (Hl0 & Hls & Hhn & Hseed & Hh & Hlen & Htot).
  destruct Hfit as [Hfit1 Hfit2]. fold n in Hfit1, Hfit2.
  rewrite extend_step in He; try int_lia; [|apply Hfit2; exact Hi].
  injection He as <-. fold i.
  split; [exact Hc1|]. split; [exact Hi|]. split; [exact Hlo|].
  split; [exact Hhi|].
  destruct (extendsLow n st); reflexivity.
Qed.

(** The loop from its start, carrying a property [Q] of the window. *)
Lemma collect_start_with (Q : window -> Prop) (width maxHeight : Z)
  (l : listing P) :
  let p := provider l in
  let n := Len p in
  0 <= seed l < n -> 0 <= maxHeight ->
  fitsInt p width maxHeight ->
  Q (windowStart l) ->
  (forall st st',
      windowInv n maxHeight (seed l) st -> Q st ->
      windowCond n maxHeight st = true ->
      extend p n width maxHeight st = Ok st' -> Q st') ->
  exists st,
    collect (Z.to_nat maxHeight) p n width maxHeight (windowStart l) = Ok st
    /\ windowInv n maxHeight (seed l) st
    /\ Q st
    /\ windowCond n maxHeight st = false.
Proof.
  intros p n Hsd Hm Hfit HQ0 HQ.
  apply (collect_inv p width maxHeight n (seed l) eq_refl Hsd Hfit Q HQ).
  - apply windowStart_inv; subst n p; lia.
  - exact HQ0.
  - cbn [windowStart height]. lia.
Qed.

Lemma List_from_window (Q : window -> Prop) (width maxHeight : Z)
  (l : listing P) :
  let p := provider l in
  let n := Len p in
  0 < n -> -1 <= selected l < n -> 0 <= maxHeight ->
  fitsInt p width maxHeight ->
  Q (windowStart l) ->
  (forall st st',
      windowInv n maxHeight (seed l) st -> Q st ->
      windowCond n maxHeight st = true ->
      extend p n width maxHeight st = Ok st' -> Q st') ->
  exists r st,
    List width maxHeight l = Ok r
    /\ shown r = Some st
    /\ after r = set_pagesize l (high st - low st)
    /\ windowInv n maxHeight (seed l) st
    /\ Q st
    /\ windowCond n maxHeight st = false.
Proof.
  intros p n Hn Hs Hm Hfit HQ0 HQ.
  pose proof (seed_range l Hs Hn) as Hsd.
  destruct (collect_start_with Q width maxHeight l Hsd Hm Hfit HQ0 HQ)
    as (st & Hc & Hinv & Hq & Hend).
  pose proof Hinv as (Hl0 & Hls & Hhn & _ & Hh & Hlen & Htot).
  destruct (List_collected width maxHeight l st) as (body & _ & HL);
    try assumption; [subst n p; lia|].
  exists (listed width l st body), st.
  split; [exact HL|]. split; [reflexivity|]. split.
  { unfold listed. cbn [after]. destruct Hfit as [Hfit1 _].
    pose proof (len_nonneg (entries st)).
    subst n p. rewrite isub_id; [reflexivity|int_lia]. }
  auto.
Qed.

(** C6: for a non-empty set List returns, and it draws the scrollbar,
    computed from the count, the window and the height, and gives the
    entries one column less, exactly when low > 0 or high < count - 1;
    otherwise, and so when low = 0 and high >= count - 1, there is no
    scrollbar and the width is kept. *)
Theorem List_scrollbar (width maxHeight : Z) (l : listing P) :
  0 < count l ->
  -1 <= selected l < count l ->
  0 <= maxHeight ->
  fitsInt (provider l) width maxHeight ->
  exists r st body,
    List width maxHeight l = Ok r
    /\ shown r = Some st
    /\ collect (Z.to_nat maxHeight) (provider l) (count l) width maxHeight
         (windowStart l) = Ok st
    /\ writeEntries (Z.to_nat (high st - low st)) (low st) (low st)
         (selected l) (entries st) (newBuffer width) = Ok body
    /\ 0 <= low st <= high st
    /\ high st <= count l
    /\ (scrollbar r <> None <-> 0 < low st \/ high st < count l - 1)
    /\ (0 < low st \/ high st < count l - 1 ->
        let sb := renderScrollbar (count l) (low st) (high st) (height st) in
        scrollbar r = Some sb
        /\ body_width r = isub width 1
        /\ out r = extendHorizontal body sb (isub width 1))
    /\ (low st = 0 -> count l - 1 <= high st ->
        scrollbar r = None /\ body_width r = width /\ out r = body).
Proof.
  intros Hn Hs Hm Hfit.
  destruct (List_from_window (fun _ => True) width maxHeight l Hn Hs Hm
              Hfit I)
    as (r & st & HL & Hshown & _ & Hinv & _ & _); [intros; exact I|].
  assert (Hmax : 0 < count l <= max_int).
  { destruct Hfit as [Hf _]. unfold count in *. lia. }
  destruct (List_scrollbar_when width maxHeight l r Hmax HL)
    as (st' & body & Hs' & Hc & Hw & Hiff & Hbar & Hnone).
  rewrite Hshown in Hs'. injection Hs' as <-.
  destruct Hinv as (Hl0 & Hls & Hhn & Hsd & _).
  exists r, st, body.
  split; [exact HL|]. split; [exact Hshown|]. split; [exact Hc|].
  split; [exact Hw|]. split; [lia|]. split; [exact Hhn|].
  split; [exact Hiff|]. split; [exact Hbar|].
  intros Hlow Hhigh. apply Hnone; [lia|exact Hhigh].
Qed.

Lemma extend_balanced (width maxHeight : Z) (l : listing P)
  (st st' : window) :
  0 <= seed l < Len (provider l) ->
  fitsInt (provider l) width maxHeight ->
  windowInv (Len (provider l)) maxHeight (seed l) st ->
  windowBalanced (Len (provider l)) (seed l) st ->
  windowCond (Len (provider l)) maxHeight st = true ->
  extend (provider l) (Len (provider l)) width maxHeight st = Ok st' ->
  windowBalanced (Len (provider l)) (seed l) st'.
Proof.
  intros Hsd Hfit Hinv Hbal Hc He.
  destruct (extend_result width maxHeight l st st' Hsd Hfit Hinv Hc He)
    as (_ & _ & Hlo & Hhi & ->).
  unfold windowBalanced in *. cbn [low high extendLow].
  destruct Hinv as (Hl0 & Hls & Hhn & Hseed & _).
  unfold extendsLow in *.
  destruct (Z.eqb_spec (high st) (Len (provider l))) as [E|E].
  - rewrite orb_true_r. lia.
  - rewrite orb_false_r in *.
    destruct (extendLow st) eqn:El; cbn [andb negb] in *.
    + destruct (Z.ltb_spec 0 (low st)); lia.
    + intros Hl Hh. specialize (Hbal Hl ltac:(lia)). lia.
Qed.

(** X7: when the window that List collects reaches neither end of the
    entries, it holds as many entries before the one the loop starts from
    as after it, or one more: the loop extends the two sides in turn. *)
Theorem List_balanced (width maxHeight : Z) (l : listing P) :
  0 < count l ->
  -1 <= selected l < count l ->
  0 <= maxHeight ->
  fitsInt (provider l) width maxHeight ->
  exists r st,
    List width maxHeight l = Ok r
    /\ shown r = Some st
    /\ (0 < low st -> high st < count l ->
        seed l - low st = high st - 1 - seed l
        \/ seed l - low st = high st - 1 - seed l + 1).
Proof.
  unfold count. intros Hn Hs Hm Hfit.
  pose proof (seed_range l Hs Hn) as Hsd.
  destruct (List_from_window (windowBalanced (Len (provider l)) (seed l))
              width maxHeight l Hn Hs Hm Hfit)
    as (r & st & HL & Hshown & _ & _ & Hbal & _).
  - unfold windowBalanced. cbn [windowStart low high extendLow].
    fold (seed l). lia.
  - intros st st' Hinv Hq Hc He.
    now apply (extend_balanced width maxHeight l st st').
  - exists r, st. split; [exact HL|]. split; [exact Hshown|].
    intros Hl Hh. specialize (Hbal Hl Hh). destruct (extendLow st); lia.
Qed.

(** X8: the lines of the entries that List collects add up to the height
    of the window, and that height is maxHeight unless every entry is
    shown: List leaves no line of the height unused while entries are
    left out. *)
Theorem List_fills_height (width maxHeight : Z) (l : listing P) :
  0 < count l ->
  -1 <= selected l < count l ->
  0 <= maxHeight ->
  fitsInt (provider l) width maxHeight ->
  exists r st,
    List width maxHeight l = Ok r
    /\ shown r = Some st
    /\ totalLines (entries st) = height st
    /\ (height st = maxHeight \/ (low st = 0 /\ high st = count l)).
Proof.
  unfold count. intros Hn Hs Hm Hfit.
  destruct (List_from_window (fun _ => True) width maxHeight l Hn Hs Hm Hfit)
    as (r & st & HL & Hshown & _ & Hinv & _ & Hend); auto.
  exists r, st. split; [exact HL|]. split; [exact Hshown|].
  destruct Hinv as (_ & _ & _ & _ & Hh & _ & Htot).
  split; [exact Htot|].
  unfold windowCond in Hend. apply andb_false_iff in Hend.
  destruct Hend as [Hend|Hend].
  - apply Z.ltb_ge in Hend. left. lia.
  - apply negb_false_iff, andb_true_iff in Hend. destruct Hend as [E1 E2].
    apply Z.eqb_eq in E1, E2. right. auto.
Qed.

Lemma extend_shape (width maxHeight : Z) (l : listing P)
  (st st' : window) :
  0 <= seed l < Len (provider l) ->
  fitsInt (provider l) width maxHeight ->
  windowInv (Len (provider l)) maxHeight (seed l) st ->
  windowUncut (provider l) width maxHeight st ->
  windowCond (Len (provider l)) maxHeight st = true ->
  extend (provider l) (Len (provider l)) width maxHeight st = Ok st' ->
  windowUncut (provider l) width maxHeight st'
  /\ cutAtEnd (provider l) width maxHeight st'.
Proof.
  intros Hsd Hfit Hinv Hun Hc He.
  destruct (extend_result width maxHeight l st st' Hsd Hfit Hinv Hc He)
    as (Hc1 & Hi & Hlo & Hhi & ->).
  destruct Hinv as (Hl0 & Hls & Hhn & Hseed & Hh & Hlen & Htot).
  destruct (Hun Hc1) as [Hent Hheight].
  pose proof (len_nonneg (entries st)) as Hk.
  set (p := provider l) in *. set (n := Len p) in *.
  set (k := Z.to_nat (high st - low st)) in *.
  unfold windowUncut, cutAtEnd. cbn [low high height entries].
  revert Hi. destruct (extendsLow n st); intros Hi.
  - specialize (Hlo eq_refl).
    replace (Z.to_nat (high st - (low st - 1) - 1)) with k by lia.
    replace (Z.to_nat (high st - (low st - 1))) with (S k) by lia.
    replace (low st - 1 + 1) with (low st) by lia.
    split.
    + intros Hlt.
      pose proof (lineCount_pos (Show p (low st - 1) width)) as Hpos.
      fold (entryLines p width (low st - 1)) in Hpos.
      rewrite cutTo_full by (unfold entryLines in *; lia).
      rewrite Hent. unfold shownEntries. cbn [Zrange map linesFrom].
      replace (low st - 1 + 1) with (low st) by lia.
      split; [reflexivity|lia].
    + right. left. split; [lia|]. rewrite Hent, Hheight. reflexivity.
  - specialize (Hhi eq_refl).
    replace (Z.to_nat (high st + 1 - low st - 1)) with k by lia.
    replace (Z.to_nat (high st + 1 - low st)) with (S k) by lia.
    replace (high st + 1 - 1) with (high st) by lia.
    assert (Ehigh : low st + Z.of_nat k = high st) by lia.
    split.
    + intros Hlt.
      pose proof (lineCount_pos (Show p (high st) width)) as Hpos.
      fold (entryLines p width (high st)) in Hpos.
      rewrite cutTo_full by (unfold entryLines in *; lia).
      rewrite Hent, shownEntries_snoc, linesFrom_snoc, Ehigh.
      split; [reflexivity|lia].
    + right. right. split; [lia|]. rewrite Hent, Hheight. reflexivity.
Qed.

(** X9: the entries that List collects are the entries of the provider at
    the indices low to high - 1, in that order; all are shown in full but
    the first or the last one, which is cut to the lines the others leave
    of maxHeight, and when the height is not used up none is cut. *)
Theorem List_entries_in_order (width maxHeight : Z) (l : listing P) :
  0 < count l ->
  -1 <= selected l < count l ->
  0 <= maxHeight ->
  fitsInt (provider l) width maxHeight ->
  exists r st,
    List width maxHeight l = Ok r
    /\ shown r = Some st
    /\ cutAtEnd (provider l) width maxHeight st
    /\ (height st < maxHeight ->
        entries st
        = shownEntries (provider l) width (low st)
            (Z.to_nat (high st - low st))).
Proof.
  unfold count. intros Hn Hs Hm Hfit.
  pose proof (seed_range l Hs Hn) as Hsd.
  destruct (List_from_window
              (fun st => windowUncut (provider l) width maxHeight st
                         /\ cutAtEnd (provider l) width maxHeight st)
              width maxHeight l Hn Hs Hm Hfit)
    as (r & st & HL & Hshown & _ & _ & [Hun Hcut] & _).
  - split.
    + intros _. cbn [windowStart low high height entries].
      rewrite Z.sub_diag. split; reflexivity.
    + left. split; reflexivity.
  - intros st st' Hinv [Hun _] Hc He.
    now apply (extend_shape width maxHeight l st st').
  - exists r, st. split; [exact HL|]. split; [exact Hshown|].
    split; [exact Hcut|]. intros Hlt. apply (Hun Hlt).
Qed.

(** X10: List changes nothing of the listing but the page size: provider,
    selection and filter text are those before the call, and without
    entries the listing is unchanged altogether. *)
Theorem List_frame (width maxHeight : Z) (l : listing P) (r : rendered) :
  List width maxHeight l = Ok r ->
  provider (after r) = provider l
  /\ selected (after r) = selected l
  /\ filter (after r) = filter l
  /\ (count l = 0 -> after r = l).
Proof.
  unfold count. intros HL.
  destruct (Z.eq_dec (Len (provider l)) 0) as [E|E].
  - unfold List in HL. rewrite E, Z.eqb_refl in HL.
    injection HL as <-. cbn [after]. auto.
  - destruct (List_inv width maxHeight l r E HL) as (st & body & _ & _ & ->).
    unfold listed. cbn [after set_pagesize provider selected filter].
    repeat split; auto. intros E'. contradiction.
Qed.

(** X11: List keeps a valid state valid: the page size it sets is between 0
    and maxHeight and at most the number of entries, and after any
    sequence of moves that follows the selection is an index of the
    entries and the page size is the one List set. *)
Theorem List_then_moves (width maxHeight : Z) (l : listing P) :
  validState l ->
  0 < count l ->
  0 <= maxHeight ->
  fitsInt (provider l) width maxHeight ->
  exists r,
    List width maxHeight l = Ok r
    /\ validState (after r)
    /\ 0 <= pagesize (after r) <= maxHeight
    /\ pagesize (after r) <= count l
    /\ forall ms,
        0 <= selected (run ms (after r)) < count l
        /\ pagesize (run ms (after r)) = pagesize (after r).
Proof.
  intros Hv Hn Hm Hfit. pose proof Hv as (Hc0 & Hs & Hs0 & Hp & Hb).
  unfold count in *.
  destruct (List_from_window (fun _ => True) width maxHeight l Hn
              ltac:(lia) Hm Hfit)
    as (r & st & HL & Hshown & Hafter & Hinv & _ & _); auto.
  destruct Hinv as (Hl0 & Hls & Hhn & _ & Hh & Hlen & Htot).
  pose proof (totalLines_ge (entries st)) as Hge.
  pose proof (len_nonneg (entries st)) as Hk.
  destruct Hfit as [Hfit1 _].
  assert (Hv' : validState (after r)).
  { rewrite Hafter. unfold validState, count.
    cbn [set_pagesize provider selected pagesize]. repeat split; lia. }
  exists r. split; [exact HL|]. split; [exact Hv'|].
  rewrite Hafter at 1 2 3. cbn [set_pagesize pagesize].
  split; [lia|]. split; [lia|]. intros ms.
  destruct (run_valid ms (after r) Hv') as [Hvr Hcr].
  destruct Hvr as (_ & Hsr & Hsr0 & _).
  assert (Hcount : count (after r) = Len (provider l)).
  { rewrite Hafter. reflexivity. }
  rewrite Hcr, Hcount in *. split; [lia|]. apply run_keeps.
Qed.

(** X12: with entries and the selection -1, up puts the selection at -2
    whether it cycles or not, and the loop of List that follows starts
    there: its first turn asks the provider to show the entry at index
    -2. *)
Theorem up_without_selection_then_List (cycle : bool) (width maxHeight : Z)
  (l : listing P) :
  0 < count l <= max_int ->
  selected l = -1 ->
  1 <= maxHeight ->
  maxHeight + entryLines (provider l) width (-2) <= max_int ->
  selected (up cycle l) = -2
  /\ windowCond (count l) maxHeight (windowStart (up cycle l)) = true
  /\ extend (provider l) (count l) width maxHeight
       (windowStart (up cycle l))
     = Ok {| low := -2; high := -1;
             height := Z.min maxHeight (entryLines (provider l) width (-2));
             entries := [cutTo maxHeight false
                           (Show (provider l) (-2) width)];
             extendLow := true |}.
Proof.
  unfold count. intros Hn Hs Hm Hfit.
  assert (Hup : up cycle l = set_selected l (-2)).
  { unfold up. destruct (Z.eqb_spec (Len (provider l)) 0); [lia|].
    cbn. rewrite Hs. reflexivity. }
  rewrite Hup. cbn [selected set_selected].
  split; [reflexivity|].
  assert (Hst : windowStart (set_selected l (-2))
                = {| low := -2; high := -2; height := 0;
                     entries := []; extendLow := false |}) by reflexivity.
  rewrite Hst. split.
  - unfold windowCond. cbn [low high height].
    destruct (Z.ltb_spec 0 maxHeight); [reflexivity|lia].
  - assert (Hlow : extendsLow (Len (provider l))
                     {| low := -2; high := -2; height := 0;
                        entries := []; extendLow := false |} = false).
    { unfold extendsLow. cbn [low high extendLow andb orb].
      destruct (Z.eqb_spec (-2) (Len (provider l))); [lia|reflexivity]. }
    pose proof (extend_step (provider l) width maxHeight (Len (provider l))
                  {| low := -2; high := -2; height := 0;
                     entries := []; extendLow := false |}) as He.
    rewrite Hlow in He. cbv zeta in He.
    cbn [low high height entries extendLow app negb] in He.
    rewrite Z.sub_0_r in He.
    apply He; [lia|int_lia|int_lia|exact Hfit].
Qed.

End WindowShapeFacts.

(** ** What List and renderScrollbar write *)

Section RecorderFacts.

Context {P : Type} `{listingProvider P}.
Context `{package}.

Lemma addPiece_open (ls : list (list piece)) (x : piece) :
  addPiece (ls ++ [[]]) x = ls ++ [[x]].
Proof. unfold addPiece. now rewrite removelast_last, last_last. Qed.

Lemma scrollbarRows_lines (slow shigh : Z) (k : nat) :
  forall (i : Z) (b : recorder),
    0 < i -> i + Z.of_nat k <= max_int ->
    linesOf (scrollbarRows k i slow shigh b)
    = linesOf b ++ map (scrollbarRow slow shigh) (Zrange i k).
Proof.
  induction k as [|k IH]; intros i b Hi Hk; cbn [scrollbarRows Zrange map].
  - now rewrite app_nil_r.
  - destruct (Z.ltb_spec 0 i); [|lia].
    rewrite iadd_id by int_lia. rewrite IH by lia.
    destruct ((slow <=? i) && (i <? shigh)) eqn:E;
      cbn [write recorderOps newline linesOf];
      rewrite addPiece_open, <- app_assoc; unfold scrollbarRow; rewrite E;
      reflexivity.
Qed.

Lemma thumbRows_closed (slow shigh : Z) (k : nat) :
  forall lo,
    thumbRows slow shigh lo k
    = Z.max 0 (Z.min shigh (lo + Z.of_nat k) - Z.max slow lo).
Proof.
  induction k as [|k IH]; intros lo; cbn [thumbRows]; [lia|].
  rewrite IH.
  destruct (Z.leb_spec slow lo), (Z.ltb_spec lo shigh); cbn [andb]; lia.
Qed.

Lemma thumbRows_count (slow shigh : Z) (k : nat) :
  forall lo,
    len (List.filter isThumb
           (concat (map (scrollbarRow slow shigh) (Zrange lo k))))
    = thumbRows slow shigh lo k.
Proof.
  induction k as [|k IH]; intros lo; [reflexivity|].
  cbn [Zrange map concat thumbRows]. unfold scrollbarRow at 1.
  cbn [app List.filter isThumb].
  destruct ((slow <=? lo) && (lo <? shigh)).
  - change (thumb =? thumb) with true. cbn iota. rewrite len_cons, IH. lia.
  - change (track =? thumb) with false. cbn iota. rewrite IH. lia.
Qed.

(** X13: for a height of at least 1 renderScrollbar writes one line of one
    glyph for each row 0 to height - 1, the thumb on the rows i with
    slow <= i < shigh and the track on the others, so the column holds
    max 0 (min shigh height - max slow 0) thumbs. *)
Theorem renderScrollbar_column (n low high height : Z) :
  1 <= height <= max_int ->
  let '(slow, shigh) := findScrollInterval n low high height in
  linesOf (renderScrollbar n low high height)
  = map (scrollbarRow slow shigh) (Zrange 0 (Z.to_nat height))
  /\ len (linesOf (renderScrollbar n low high height)) = height
  /\ len (List.filter isThumb
            (concat (linesOf (renderScrollbar n low high height))))
     = Z.max 0 (Z.min shigh height - Z.max slow 0).
Proof.
  intros Hh. unfold renderScrollbar.
  destruct (findScrollInterval n low high height) as [slow shigh].
  assert (Hlines :
    linesOf (scrollbarRows (Z.to_nat height) 0 slow shigh (newBuffer 1))
    = map (scrollbarRow slow shigh) (Zrange 0 (Z.to_nat height))).
  { destruct (Z.to_nat height) as [|k] eqn:Ek; [lia|].
    cbn [scrollbarRows Zrange map]. change (0 <? 0) with false. cbn iota.
    change (iadd 0 1) with 1. rewrite scrollbarRows_lines by lia.
    unfold scrollbarRow at 2.
    destruct ((slow <=? 0) && (0 <? shigh)); reflexivity. }
  rewrite Hlines. split; [reflexivity|]. split.
  - unfold len. rewrite length_map.
    assert (Hlen : forall k lo, List.length (Zrange lo k) = k).
    { clear. induction k as [|k IH]; intros lo; cbn; [reflexivity|].
      now rewrite IH. }
    rewrite Hlen. lia.
  - rewrite thumbRows_count, thumbRows_closed. f_equal. f_equal; lia.
Qed.


Lemma writeEntries_lines (lo sel : Z) (k : nat) :
  forall (q : list styled) (i : Z) (b b' : recorder),
    min_int <= lo < i -> i + Z.of_nat k <= max_int ->
    writeEntries k i lo sel q b = Ok b' ->
    linesOf b'
    = linesOf b ++ map (entryRow sel) (combine (Zrange i k) q)
    /\ (k <= List.length q)%nat.
Proof.
  induction k as [|k IH]; intros q i b b' Hi Hk Hw;
    cbn [writeEntries Zrange combine map] in *.
  - injection Hw as <-. rewrite app_nil_r. split; [reflexivity|lia].
  - destruct (Z.ltb_spec lo i); [|lia].
    destruct q as [|s q]; [discriminate|].
    rewrite iadd_id in Hw by int_lia.
    apply IH in Hw; [|lia|lia]. destruct Hw as [-> Hlen].
    cbn [writes recorderOps newline linesOf combine map List.length].
    rewrite addPiece_open, <- app_assoc. split; [reflexivity|lia].
Qed.

Lemma entryRow_plain (sel : Z) (k : nat) :
  forall (q : list styled) (lo : Z),
    sel < lo \/ lo + Z.of_nat k <= sel ->
    map (entryRow sel) (combine (Zrange lo k) q)
    = map (fun s => [Text (text s) (style s)]) (firstn k q).
Proof.
  induction k as [|k IH]; intros q lo Hsel; [reflexivity|].
  destruct q as [|s q]; [reflexivity|].
  cbn [Zrange combine map firstn]. rewrite IH by lia.
  unfold entryRow at 1. cbn [fst snd].
  destruct (Z.eqb_spec lo sel); [lia|reflexivity].
Qed.

(** The lines of a render that returned with a window that is not
    empty. *)
Lemma List_lines_when (width maxHeight : Z) (l : listing P)
  (r : rendered (buffer := recorder)) (st : window) :
  List width maxHeight l = Ok r ->
  shown r = Some st ->
  low st < high st -> min_int <= low st -> high st <= max_int ->
  let k := Z.to_nat (high st - low st) in
  linesOf (out r)
  = map (entryRow (selected l)) (combine (Zrange (low st) k) (entries st))
  /\ (k <= List.length (entries st))%nat
  /\ (selected l < low st \/ high st <= selected l ->
      linesOf (out r)
      = map (fun s => [Text (text s) (style s)]) (firstn k (entries st))).
Proof.
  intros HL Hshown Hlt Hlo Hhi k.
  assert (Hn : Len (provider l) <> 0).
  { intros E. unfold List in HL. rewrite E, Z.eqb_refl in HL.
    injection HL as <-. discriminate Hshown. }
  destruct (List_inv width maxHeight l r Hn HL)
    as (st' & body & _ & Hw & ->).
  unfold listed in Hshown. cbn [shown] in Hshown. injection Hshown as ->.
  fold k in Hw.
  assert (Hlines : linesOf (out (listed width l st body)) = linesOf body).
  { unfold listed. cbn [out]. now destruct (_ || _). }
  rewrite Hlines.
  assert (Hbody : linesOf body
                  = map (entryRow (selected l))
                      (combine (Zrange (low st) k) (entries st))
                  /\ (k <= List.length (entries st))%nat).
  { destruct k as [|k'] eqn:Ek; [lia|].
    cbn [writeEntries] in Hw. rewrite Z.ltb_irrefl in Hw.
    destruct (entries st) as [|s q]; [discriminate|].
    rewrite iadd_id in Hw by int_lia.
    apply writeEntries_lines in Hw; [|lia|lia]. destruct Hw as [-> Hlen].
    cbn [Zrange combine map List.length]. split; [reflexivity|lia]. }
  destruct Hbody as [Hbody Hlen].
  split; [exact Hbody|]. split; [exact Hlen|].
  intros Hsel. rewrite Hbody. apply entryRow_plain. lia.
Qed.

(** X14: for a set that is not empty and a height of at least 1, List
    returns with a window that is not empty and writes one [writes] for
    each index low to high - 1, the first on the line the buffer starts
    with and each other one after a [newline], with the text of the
    collected entry and its style, followed by styleForSelected on the
    entry whose index is the selection; a selection that is an index is
    in the window, and with the selection -1 no style is changed. *)
Theorem List_body_lines (width maxHeight : Z) (l : listing P) :
  0 < count l ->
  -1 <= selected l < count l ->
  1 <= maxHeight ->
  fitsInt (provider l) width maxHeight ->
  exists (r : rendered (buffer := recorder)) (st : window),
    List width maxHeight l = Ok r
    /\ shown r = Some st
    /\ 0 <= low st < high st
    /\ high st <= count l
    /\ len (entries st) = high st - low st
    /\ linesOf (out r)
       = map (entryRow (selected l))
           (combine (Zrange (low st) (Z.to_nat (high st - low st)))
              (entries st))
    /\ (0 <= selected l -> low st <= selected l < high st)
    /\ (selected l = -1 ->
        linesOf (out r)
        = map (fun s => [Text (text s) (style s)]) (entries st)).
Proof.
  unfold count. intros Hn Hs Hm Hfit.
  assert (Hm0 : 0 <= maxHeight) by lia.
  destruct (List_from_window (fun _ => True) width maxHeight l Hn Hs Hm0
              Hfit I)
    as (r & st & HL & Hshown & _ & Hinv & _ & Hend); [intros; exact I|].
  pose proof (seed_range l Hs Hn) as Hsd.
  destruct Hinv as (Hl0 & Hls & Hhn & Hin & Hh & Hlen & Htot).
  assert (Hlt : low st < high st).
  { destruct Hin as [Hin|(Hhi & Hlo & _)]; [lia|].
    assert (Hnil : entries st = []).
    { destruct (entries st) as [|e q]; [reflexivity|].
      rewrite len_cons in Hlen. pose proof (len_nonneg q). lia. }
    rewrite Hnil in Htot. cbn in Htot.
    unfold windowCond in Hend. cbv zeta in Hend.
    destruct (Z.ltb_spec (height st) maxHeight); [|lia].
    destruct (Z.eqb_spec (low st) 0);
      destruct (Z.eqb_spec (high st) (Len (provider l)));
      cbn in Hend; try discriminate Hend.
    lia. }
  assert (Hmax : Len (provider l) <= max_int).
  { destruct Hfit as [Hf _]. lia. }
  destruct (List_lines_when width maxHeight l r st HL Hshown Hlt)
    as (Hlines & _ & Hplain); [int_lia|lia|].
  exists r, st.
  split; [exact HL|]. split; [exact Hshown|]. split; [lia|].
  split; [exact Hhn|]. split; [exact Hlen|]. split; [exact Hlines|].
  split.
  - intros Hsel. unfold seed in *.
    destruct (Z.eqb_spec (selected l) (-1)); lia.
  - intros Hsel. rewrite Hplain by lia. f_equal.
    apply firstn_all2. unfold len in Hlen. lia.
Qed.

End RecorderFacts.

(** ** Accepting and the registries *)

Lemma Key_eqb_spec (a b : Key) : reflect (a = b) (Key_eqb a b).
Proof.
  unfold Key_eqb. destruct a as [r m], b as [r' m']; cbn.
  destruct (Z.eqb_spec r r'), (Z.eqb_spec m m'); constructor; congruence.
Qed.

Lemma setKey_same (m : bindings) (k : Key) (v : gostring) :
  setKey m k v k = Some v.
Proof. unfold setKey. now destruct (Key_eqb_spec k k). Qed.

Lemma setKey_other (m : bindings) (k k' : Key) (v : gostring) :
  k' <> k -> setKey m k v k' = m k'.
Proof. intros Hne. unfold setKey. now destruct (Key_eqb_spec k' k). Qed.

Section RegistryFacts.

Context {P E : Type} `{listingProvider P} `{editorOps P E}.
Context `{package} `{Keys.t}.

Lemma bindFree_keeps (prefix : gostring) (m : bindings)
  (kn : Key * gostring) (k : Key) (v : gostring) :
  m k = Some v -> bindFree prefix m kn k = Some v.
Proof.
  intros Hk. unfold bindFree. destruct (m (fst kn)) eqn:Efree; [exact Hk|].
  rewrite setKey_other; [exact Hk|]. intros ->. congruence.
Qed.

Lemma bindFree_other (prefix : gostring) (m : bindings)
  (kn : Key * gostring) (k : Key) :
  k <> fst kn -> bindFree prefix m kn k = m k.
Proof.
  intros Hne. unfold bindFree. destruct (m (fst kn)); [reflexivity|].
  now apply setKey_other.
Qed.

Lemma bindFree_bound (prefix : gostring) (m : bindings)
  (kn : Key * gostring) :
  exists v, bindFree prefix m kn (fst kn) = Some v.
Proof.
  unfold bindFree. destruct (m (fst kn)) eqn:Efree; [eauto|].
  rewrite setKey_same. eauto.
Qed.

Lemma bindFree_origin (prefix : gostring) (m : bindings)
  (kn : Key * gostring) (k : Key) (v : gostring) :
  bindFree prefix m kn k = Some v ->
  m k = Some v \/ v = prefix ++ snd kn.
Proof.
  unfold bindFree. destruct (m (fst kn)) eqn:Efree; [auto|].
  unfold setKey. destruct (Key_eqb k (fst kn)); [|auto].
  intros [= <-]. auto.
Qed.

Lemma bindAll_keeps (prefix : gostring) (kns : list (Key * gostring)) :
  forall (m : bindings) (k : Key) (v : gostring),
    m k = Some v -> fold_left (bindFree prefix) kns m k = Some v.
Proof.
  induction kns as [|kn kns IH]; intros m k v Hk; cbn; [exact Hk|].
  apply IH. now apply bindFree_keeps.
Qed.

Lemma bindAll_other (prefix : gostring) (kns : list (Key * gostring)) :
  forall (m : bindings) (k : Key),
    ~ In k (map fst kns) -> fold_left (bindFree prefix) kns m k = m k.
Proof.
  induction kns as [|kn kns IH]; intros m k Hk; cbn; [reflexivity|].
  cbn in Hk. rewrite IH by tauto. apply bindFree_other. intros ->. tauto.
Qed.

Lemma bindAll_bound (prefix : gostring) (kns : list (Key * gostring)) :
  forall (m : bindings) (k : Key),
    In k (map fst kns) ->
    exists v, fold_left (bindFree prefix) kns m k = Some v.
Proof.
  induction kns as [|kn kns IH]; intros m k Hk; cbn in *; [contradiction|].
  destruct Hk as [<-|Hk]; [|now apply IH].
  destruct (bindFree_bound prefix m kn) as [v Hv].
  exists v. now apply bindAll_keeps.
Qed.

Lemma bindAll_origin (prefix : gostring) (kns : list (Key * gostring)) :
  forall (m : bindings) (k : Key) (v : gostring),
    fold_left (bindFree prefix) kns m k = Some v ->
    m k = Some v \/ exists nm, In nm (map snd kns) /\ v = prefix ++ nm.
Proof.
  induction kns as [|kn kns IH]; intros m k v Hk; cbn in *; [auto|].
  apply IH in Hk. destruct Hk as [Hk|(nm & Hin & ->)]; [|eauto].
  apply bindFree_origin in Hk. destruct Hk as [Hk| ->]; eauto.
Qed.

Lemma bindAll_noop (prefix : gostring) (kns : list (Key * gostring)) :
  forall m : bindings,
    (forall k, In k (map fst kns) -> exists v, m k = Some v) ->
    fold_left (bindFree prefix) kns m = m.
Proof.
  induction kns as [|kn kns IH]; intros m Hm; cbn; [reflexivity|].
  assert (Enoop : bindFree prefix m kn = m).
  { unfold bindFree. destruct (Hm (fst kn)) as [v ->]; [now left|].
    reflexivity. }
  rewrite Enoop. apply IH. intros k Hk. apply Hm. now right.
Qed.

Lemma addDefault_some (prefix : gostring) (k : Key) (nm : gostring)
  (m : bindings) :
  addDefault prefix k nm (Some m) = Ok (Some (bindFree prefix m (k, nm))).
Proof.
  unfold addDefault, bindFree, lookup, assign. cbn [fst snd].
  now destruct (m k).
Qed.

(** The default bindings on a table that is there. *)
Lemma addListingDefaultBindings_some (prefix : gostring) (m : bindings) :
  addListingDefaultBindings prefix (Some m)
  = Ok (Some (setKey (fold_left (bindFree prefix) defaultKeys m)
                ctrlBracket names.start_insert)).
Proof.
  unfold addListingDefaultBindings.
  repeat (rewrite addDefault_some; cbn [bind]).
  reflexivity.
Qed.

(** X15: addListingDefaultBindings panics when the table of the mode is
    nil; on a table that is there it binds Ctrl-[ to start-insert
    whatever was bound, keeps every other binding of the table, leaves
    each of its eight keys bound, and touches no other key. *)
Theorem default_bindings_keep (prefix : gostring) (m : bindings) :
  addListingDefaultBindings prefix None = Panic
  /\ exists m',
      addListingDefaultBindings prefix (Some m) = Ok (Some m')
      /\ m' ctrlBracket = Some names.start_insert
      /\ (forall k v, m k = Some v -> k <> ctrlBracket -> m' k = Some v)
      /\ (forall k, In k (map fst defaultKeys) -> exists v, m' k = Some v)
      /\ (forall k, ~ In k (map fst defaultKeys) -> k <> ctrlBracket ->
                    m' k = m k).
Proof.
  split; [reflexivity|]. eexists.
  split; [apply addListingDefaultBindings_some|].
  split; [apply setKey_same|]. split; [|split].
  - intros k v Hk Hne. rewrite setKey_other by exact Hne.
    now apply bindAll_keeps.
  - intros k Hk. destruct (Key_eqb_spec k ctrlBracket) as [->|Hne].
    + rewrite setKey_same. eauto.
    + rewrite setKey_other by exact Hne. now apply bindAll_bound.
  - intros k Hk Hne. rewrite setKey_other by exact Hne.
    now apply bindAll_other.
Qed.

(** X16: addListingDefaultBindings called a second time changes nothing:
    the table after two calls binds every key as the table after one. *)
Theorem default_bindings_idempotent (prefix : gostring) (m : bindings) :
  exists m' m'',
    addListingDefaultBindings prefix (Some m) = Ok (Some m')
    /\ addListingDefaultBindings prefix (Some m') = Ok (Some m'')
    /\ forall k, m'' k = m' k.
Proof.
  eexists. eexists.
  split; [apply addListingDefaultBindings_some|].
  split; [apply addListingDefaultBindings_some|].
  intros k. rewrite bindAll_noop.
  - destruct (Key_eqb_spec k ctrlBracket) as [->|Hne].
    + now rewrite !setKey_same.
    + now rewrite (setKey_other _ _ _ _ Hne).
  - intros k' Hk'. destruct (Key_eqb_spec k' ctrlBracket) as [->|Hne].
    + rewrite setKey_same. eauto.
    + rewrite setKey_other by exact Hne. now apply bindAll_bound.
Qed.

Lemma addListingBuiltins_app (prefix : gostring) (bs : list Builtin) :
  addListingBuiltins prefix bs = bs ++ addListingBuiltins prefix [].
Proof.
  unfold addListingBuiltins, addBuiltin. cbn [app].
  now rewrite <- !app_assoc.
Qed.

(** X17: every binding of the table after addListingDefaultBindings was in
    the table before, is start-insert, or names a builtin that
    addListingBuiltins registers under the same prefix. *)
Theorem default_bindings_resolve (prefix : gostring) (m : bindings)
  (bs : list Builtin) :
  exists m',
    addListingDefaultBindings prefix (Some m) = Ok (Some m')
    /\ forall k v,
        m' k = Some v ->
        m k = Some v
        \/ v = names.start_insert
        \/ exists b, In b (addListingBuiltins prefix bs) /\ name b = v.
Proof.
  eexists. split; [apply addListingDefaultBindings_some|].
  intros k v Hk. destruct (Key_eqb_spec k ctrlBracket) as [->|Hne].
  - rewrite setKey_same in Hk. injection Hk as <-. auto.
  - rewrite setKey_other in Hk by exact Hne.
    apply bindAll_origin in Hk. destruct Hk as [Hk|(nm & Hin & ->)]; [auto|].
    right. right. rewrite addListingBuiltins_app.
    assert (Hname : In (prefix ++ nm)
                      (map name (addListingBuiltins prefix []))).
    { change (map name (addListingBuiltins prefix []))
        with (map (app prefix)
                [names.up; names.up_cycle; names.page_up; names.down;
                 names.down_cycle; names.page_down; names.backspace;
                 names.accept; names.default]).
      apply in_map. cbn in Hin |- *. tauto. }
    apply in_map_iff in Hname. destruct Hname as (b & Hb & Hin').
    exists b. split; [apply in_or_app; now right|exact Hb].
Qed.

(** X18: addListingBuiltins keeps the builtins registered before and
    appends nine, named by the prefix followed by up, up-cycle, page-up,
    down, down-cycle, page-down, backspace, accept and default; the nine
    names differ from each other for every prefix, and the builtin of
    each name calls the method of that name, with cycling for the two
    cycle names only. *)
Theorem listing_builtins (prefix : gostring) (bs : list Builtin) :
  addListingBuiltins prefix bs = bs ++ addListingBuiltins prefix []
  /\ map name (addListingBuiltins prefix [])
     = map (app prefix)
         [names.up; names.up_cycle; names.page_up; names.down;
          names.down_cycle; names.page_down; names.backspace;
          names.accept; names.default]
  /\ NoDup (map name (addListingBuiltins prefix []))
  /\ forall b (l : listing P) (ed : E),
      In b (addListingBuiltins prefix []) ->
      (name b = prefix ++ names.up ->
       perform (impl b) l ed = Ok (up false l, ed))
      /\ (name b = prefix ++ names.up_cycle ->
          perform (impl b) l ed = Ok (up true l, ed))
      /\ (name b = prefix ++ names.down ->
          perform (impl b) l ed = Ok (down false l, ed))
      /\ (name b = prefix ++ names.down_cycle ->
          perform (impl b) l ed = Ok (down true l, ed))
      /\ (name b = prefix ++ names.page_up ->
          perform (impl b) l ed = Ok (pageUp l, ed))
      /\ (name b = prefix ++ names.page_down ->
          perform (impl b) l ed = Ok (pageDown l, ed))
      /\ (name b = prefix ++ names.backspace ->
          perform (impl b) l ed = ('(_, l') <- backspace l ;; Ok (l', ed)))
      /\ (name b = prefix ++ names.accept ->
          perform (impl b) l ed = Ok (l, accept l ed))
      /\ (name b = prefix ++ names.default ->
          perform (impl b) l ed = Ok (defaultBinding l ed)).
Proof.
  split; [apply addListingBuiltins_app|]. split; [reflexivity|].
  split.
  - cbn. repeat constructor; cbn [In]; intros Hin;
      repeat (destruct Hin as [Hin|Hin];
              [apply app_inv_head in Hin; discriminate Hin|]);
      contradiction.
  - intros b l ed Hin. cbn in Hin.
    repeat (destruct Hin as [<-|Hin];
            [cbn [name impl perform];
             repeat split; intros Hn; try reflexivity;
             apply app_inv_head in Hn; discriminate Hn|]).
    contradiction.
Qed.

(** X19: from a valid state and after any sequence of moves, accept leaves
    the editor alone when there are no entries, and otherwise hands the
    provider the selection, which is an index of the entries. *)
Theorem accept_after_moves (l : listing P) (ms : list move) (ed : E) :
  validState l ->
  (count l = 0 -> accept (run ms l) ed = ed)
  /\ (0 < count l ->
      0 <= selected (run ms l) < count l
      /\ accept (run ms l) ed
         = Accept (provider l) (selected (run ms l)) ed).
Proof.
  intros Hv. destruct (run_valid ms l Hv) as [Hvr Hc].
  destruct (run_keeps ms l) as (Hp & _).
  destruct Hvr as (_ & Hs & Hs0 & _). rewrite Hc in *.
  unfold accept. split.
  - intros Hzero.
    destruct (Z.leb_spec 0 (selected (run ms l))); [lia|reflexivity].
  - intros Hn. split; [lia|].
    destruct (Z.leb_spec 0 (selected (run ms l))); [|lia].
    now rewrite Hp.
Qed.

End RegistryFacts.

(** ** The further theorems on the samples *)

Lemma five_fits (maxHeight : Z) :
  0 <= maxHeight <= 1000 -> fitsInt (provider fiveListing) 80 maxHeight.
Proof.
  intros Hm. split.
  - change (Len (provider fiveListing)) with 5. int_lia.
  - change (Len (provider fiveListing)) with 5. intros i Hi.
    assert (i = 0 \/ i = 1 \/ i = 2 \/ i = 3 \/ i = 4)
      as [-> | [-> | [-> | [-> | ->]]]] by lia.
    all: match goal with
         | |- _ + entryLines ?p ?w ?i <= _ =>
             change (entryLines p w i) with 1
         end; int_lia.
Qed.

Lemma List_balanced_witness :
  exists r st,
    List 80 3 fiveListing = Ok r
    /\ shown r = Some st
    /\ (0 < low st -> high st < count fiveListing ->
        seed fiveListing - low st = high st - 1 - seed fiveListing
        \/ seed fiveListing - low st = high st - 1 - seed fiveListing + 1).
Proof.
  apply (List_balanced 80 3 fiveListing);
    [closed_arith|closed_arith|closed_arith|].
  apply five_fits. closed_arith.
Defined.

(** The window of the witness is [1, 4) around the seed 2, away from both
    ends of the five entries. *)
Example List_balanced_sample :
  exists r,
    List 80 3 fiveListing = Ok r
    /\ option_map (fun st => (low st, high st)) (shown r) = Some (1, 4).
Proof. eexists. split; vm_compute; reflexivity. Qed.

Lemma List_scrollbar_witness :
  (exists r : rendered (buffer := recorder),
      List 80 1 (set_selected sampleListing 2) = Ok r
      /\ option_map (fun st => (low st, high st)) (shown r) = Some (2, 3)
      /\ scrollbar r = Some (renderScrollbar 3 2 3 1)
      /\ body_width r = 79)
  /\ (exists r : rendered (buffer := recorder),
        List 80 2 (set_selected fiveListing 0) = Ok r
        /\ option_map (fun st => (low st, high st)) (shown r) = Some (0, 2)
        /\ scrollbar r = Some (renderScrollbar 5 0 2 2)
        /\ body_width r = 79)
  /\ (exists r : rendered (buffer := recorder),
        List 80 4 sampleListing = Ok r
        /\ option_map (fun st => (low st, high st)) (shown r) = Some (0, 2)
        /\ scrollbar r = None
        /\ body_width r = 80).
Proof.
  split; [|split].
  - destruct (List_scrollbar 80 1 (set_selected sampleListing 2))
      as (r & st & body & HL & Hshown & _ & _ & _ & _ & _ & Hbar & _);
      [closed_arith|closed_arith|closed_arith
      |apply sample_fits; closed_arith|].
    exists r. split; [exact HL|].
    vm_compute in HL. injection HL as <-.
    cbn in Hshown. injection Hshown as <-.
    destruct Hbar as (Hsb & Hw & _); [left; reflexivity|].
    split; [reflexivity|]. split; [exact Hsb|exact Hw].
  - destruct (List_scrollbar 80 2 (set_selected fiveListing 0))
      as (r & st & body & HL & Hshown & _ & _ & _ & _ & _ & Hbar & _);
      [closed_arith|closed_arith|closed_arith
      |apply (five_fits 2); closed_arith|].
    exists r. split; [exact HL|].
    vm_compute in HL. injection HL as <-.
    cbn in Hshown. injection Hshown as <-.
    destruct Hbar as (Hsb & Hw & _); [right; reflexivity|].
    split; [reflexivity|]. split; [exact Hsb|exact Hw].
  - destruct (List_scrollbar 80 4 sampleListing)
      as (r & st & body & HL & Hshown & _ & _ & _ & _ & _ & _ & Hnone);
      [closed_arith|closed_arith|closed_arith
      |apply sample_fits; closed_arith|].
    exists r. split; [exact HL|].
    vm_compute in HL. injection HL as <-.
    cbn in Hshown. injection Hshown as <-.
    destruct Hnone as (Hsb & Hw & _); [reflexivity|closed_arith|].
    split; [reflexivity|]. split; [exact Hsb|exact Hw].
Defined.

Lemma List_fills_height_witness :
  exists r st,
    List 80 3 fiveListing = Ok r
    /\ shown r = Some st
    /\ totalLines (entries st) = height st
    /\ (height st = 3 \/ (low st = 0 /\ high st = count fiveListing)).
Proof.
  apply (List_fills_height 80 3 fiveListing);
    [closed_arith|closed_arith|closed_arith|].
  apply five_fits. closed_arith.
Defined.

Lemma List_entries_in_order_witness :
  exists r st,
    List 80 2 sampleListing = Ok r
    /\ shown r = Some st
    /\ cutAtEnd (provider sampleListing) 80 2 st
    /\ (height st < 2 ->
        entries st
        = shownEntries (provider sampleListing) 80 (low st)
            (Z.to_nat (high st - low st))).
Proof.
  apply (List_entries_in_order 80 2 sampleListing);
    [closed_arith|closed_arith|closed_arith|].
  apply sample_fits. closed_arith.
Defined.

Lemma List_frame_witness :
  exists r,
    List 80 2 sampleListing = Ok r
    /\ provider (after r) = provider sampleListing
    /\ selected (after r) = selected sampleListing
    /\ filter (after r) = filter sampleListing.
Proof.
  destruct (List 80 2 sampleListing) as [r| |] eqn:HL;
    [|vm_compute in HL; discriminate HL..].
  destruct (List_frame 80 2 sampleListing r HL) as (Hp & Hs & Hf & _).
  exists r. split; [reflexivity|]. split; [exact Hp|].
  split; [exact Hs|exact Hf].
Defined.

Lemma List_then_moves_witness :
  exists r,
    List 80 2 sampleListing = Ok r
    /\ validState (after r)
    /\ 0 <= pagesize (after r) <= 2
    /\ pagesize (after r) <= count sampleListing
    /\ forall ms,
        0 <= selected (run ms (after r)) < count sampleListing
        /\ pagesize (run ms (after r)) = pagesize (after r).
Proof.
  apply (List_then_moves 80 2 sampleListing);
    [closed_arith|closed_arith|closed_arith|].
  apply sample_fits. closed_arith.
Defined.

Lemma List_body_lines_witness :
  (exists (r : rendered (buffer := recorder)) st,
      List 80 2 sampleListing = Ok r
      /\ shown r = Some st
      /\ linesOf (out r)
         = [[Text [x61; x62] styleForSelected]; [Text [x61] []]])
  /\ (exists (r : rendered (buffer := recorder)) st,
        List 80 1 (set_selected sampleListing 2) = Ok r
        /\ shown r = Some st
        /\ 0 < low st
        /\ linesOf (out r) = [[Text [x62] styleForSelected]])
  /\ (exists (r : rendered (buffer := recorder)) st,
        List 80 4 unselectedListing = Ok r
        /\ shown r = Some st
        /\ linesOf (out r)
           = [[Text [x61; x62] []]; [Text [x61; x0a; x63; x0a; x64] []]]).
Proof.
  split; [|split].
  - destruct (List_body_lines 80 2 sampleListing)
      as (r & st & HL & Hshown & _ & _ & _ & Hlines & _);
      [closed_arith|closed_arith|closed_arith
      |apply sample_fits; closed_arith|].
    exists r, st. split; [exact HL|]. split; [exact Hshown|].
    rewrite Hlines. vm_compute in HL. injection HL as <-.
    cbn in Hshown. injection Hshown as <-. reflexivity.
  - destruct (List_body_lines 80 1 (set_selected sampleListing 2))
      as (r & st & HL & Hshown & _ & _ & _ & Hlines & _);
      [closed_arith|closed_arith|closed_arith
      |apply sample_fits; closed_arith|].
    exists r, st. split; [exact HL|]. split; [exact Hshown|].
    rewrite Hlines. vm_compute in HL. injection HL as <-.
    cbn in Hshown. injection Hshown as <-. split; reflexivity.
  - destruct (List_body_lines 80 4 unselectedListing)
      as (r & st & HL & Hshown & _ & _ & _ & _ & _ & Hplain);
      [closed_arith|closed_arith|closed_arith
      |apply sample_fits; closed_arith|].
    exists r, st. split; [exact HL|]. split; [exact Hshown|].
    rewrite Hplain by reflexivity. vm_compute in HL. injection HL as <-.
    cbn in Hshown. injection Hshown as <-. reflexivity.
Defined.

Lemma renderScrollbar_column_witness :
  let '(slow, shigh) := findScrollInterval 10 0 5 5 in
  linesOf (renderScrollbar 10 0 5 5)
  = map (scrollbarRow slow shigh) (Zrange 0 (Z.to_nat 5))
  /\ len (linesOf (renderScrollbar 10 0 5 5)) = 5
  /\ len (List.filter isThumb (concat (linesOf (renderScrollbar 10 0 5 5))))
     = Z.max 0 (Z.min shigh 5 - Z.max slow 0).
Proof. apply (renderScrollbar_column 10 0 5 5). closed_arith. Defined.

Lemma cycle_inverse_witness :
  down true (up true sampleListing) = sampleListing
  /\ up true (down true sampleListing) = sampleListing.
Proof. apply (cycle_inverse sampleListing); closed_arith. Defined.

Lemma cycle_steps_witness :
  selected (run (repeat (Down true) 3) sampleListing)
  = (selected sampleListing + Z.of_nat 3) mod count sampleListing
  /\ selected (run (repeat (Up true) 3) sampleListing)
     = (selected sampleListing - Z.of_nat 3) mod count sampleListing
  /\ (Z.of_nat 3 = count sampleListing ->
      run (repeat (Down true) 3) sampleListing = sampleListing
      /\ run (repeat (Up true) 3) sampleListing = sampleListing).
Proof. apply (cycle_steps sampleListing 3); closed_arith. Defined.

Lemma page_steps_witness :
  selected (run (repeat PageUp 1) pagedListing)
  = Z.max 0 (selected pagedListing - Z.of_nat 1 * pagesize pagedListing)
  /\ selected (run (repeat PageDown 1) pagedListing)
     = Z.min (count pagedListing - 1)
         (selected pagedListing + Z.of_nat 1 * pagesize pagedListing).
Proof. apply (page_steps pagedListing 1); closed_arith. Defined.

Lemma up_without_selection_then_List_witness :
  selected (up true unselectedListing) = -2
  /\ windowCond (count unselectedListing) 2
       (windowStart (up true unselectedListing)) = true
  /\ extend (provider unselectedListing) (count unselectedListing) 80 2
       (windowStart (up true unselectedListing))
     = Ok {| low := -2; high := -1;
             height :=
               Z.min 2 (entryLines (provider unselectedListing) 80 (-2));
             entries := [cutTo 2 false
                           (Show (provider unselectedListing) (-2) 80)];
             extendLow := true |}.
Proof.
  apply (up_without_selection_then_List true 80 2 unselectedListing);
    closed_arith.
Defined.

Lemma type_then_delete_witness :
  filter (typeKeys [sampleKey; sampleKey] sampleListing)
  = filter sampleListing ++ encodeAll (map Rune [sampleKey; sampleKey])
  /\ exists l2,
      backspaces 2 (typeKeys [sampleKey; sampleKey] sampleListing)
      = Ok (repeat true 2, l2)
      /\ filter l2 = filter sampleListing
      /\ pagesize l2 = pagesize sampleListing
      /\ ([sampleKey; sampleKey] <> [] -> deterministic ->
          selected l2
          = selected (changeFilter (filter sampleListing) sampleListing)).
Proof.
  apply (type_then_delete [sampleKey; sampleKey] sampleListing);
    closed_arith.
Defined.

Lemma filter_whole_characters_witness :
  exists l,
    filterRun [TypeKey sampleKey; DeleteChar; DeleteChar]
      (newListing sampleEntries) = Ok l
    /\ wholeChars l
    /\ len (filter l) <= 4 * len [TypeKey sampleKey; DeleteChar; DeleteChar].
Proof.
  apply (filter_whole_characters sampleEntries
           [TypeKey sampleKey; DeleteChar; DeleteChar]).
  closed_arith.
Defined.

Lemma accept_after_moves_witness :
  (count sampleListing = 0 -> accept (run [Down true] sampleListing) [] = [])
  /\ (0 < count sampleListing ->
      0 <= selected (run [Down true] sampleListing) < count sampleListing
      /\ accept (run [Down true] sampleListing) []
         = Accept (provider sampleListing)
             (selected (run [Down true] sampleListing)) []).
Proof.
  apply (accept_after_moves sampleListing [Down true] []). closed_arith.
Defined.

(** On a table without bindings and with the sample keys, Tab is bound
    to the builtin that moves down with a wrap and Down to the one that
    stops at the end. *)
Example default_bindings_sample :
  exists m,
    addListingDefaultBindings [x78] (Some (fun _ => None)) = Ok (Some m)
    /\ m (plain Keys.Tab) = Some ([x78] ++ names.down_cycle)
    /\ m (plain Keys.Down) = Some ([x78] ++ names.down)
    /\ m ctrlBracket = Some names.start_insert.
Proof. eexists. split; [reflexivity|]. repeat split. Qed.
